(** * E20 machine simulator (e20sim.cpp): shallow embedding and properties

    The simulator keeps an 8192-word memory, eight registers and a program
    counter, all of C++ type [unsigned] (32 bits here), and runs a
    fetch/decode/execute loop until the [halted] flag is raised.

    Unsigned values are modelled as [Z] with the 32-bit wrap-around written
    out ([u32]); the two arrays are lists indexed with stdpp's lookup and
    insert, and an index outside an array (undefined behaviour in C++) is a
    [fault] of the model, so that "every access is in range" is a theorem
    and not an assumption. *)

From Stdlib Require Import ZArith Lia Bool Ascii String.
From stdpp Require Import base list strings.

Local Open Scope Z_scope.

(** ** Constants *)

Definition NUM_REGS : Z := 8.
Definition MEM_SIZE : Z := Z.shiftl 1 13.
Definition REG_SIZE : Z := Z.shiftl 1 16.

(** Arithmetic on [unsigned] wraps modulo 2^32. *)
Definition u32 (z : Z) : Z := z mod 2 ^ 32.

(** [INT_MAX], the largest value [stoi] returns. *)
Definition INT_MAX : Z := 2 ^ 31 - 1.

(** ** Results of fallible code *)

Inductive fault : Type :=
  | UnknownOpcode (opcode current_pc : Z)   (* the default branch of the switch *)
  | OutOfBounds (index : Z).                (* an array index outside its array *)

Inductive result (A : Type) : Type :=
  | Ok (a : A)
  | Err (e : fault).
Arguments Ok {A} a.
Arguments Err {A} e.

#[global] Instance result_ret : MRet result := fun A a => Ok a.
#[global] Instance result_bind : MBind result := fun A B f m =>
  match m with
  | Ok a => f a
  | Err e => Err e
  end.

(** ** Arrays *)

(** [a[i]] as an rvalue. *)
Definition rd (a : list Z) (i : Z) : result Z :=
  match a !! Z.to_nat i with
  | Some v => Ok v
  | None => Err (OutOfBounds i)
  end.

(** [a[i] = v]. *)
Definition wr (a : list Z) (i v : Z) : result (list Z) :=
  if decide (Z.to_nat i < length a)%nat
  then Ok (<[Z.to_nat i := v]> a)
  else Err (OutOfBounds i).

(** ** Helper functions *)

(** [extract_bits]: the mask is computed on [int] and converted to
    [unsigned]. *)
Definition extract_bits (instruction start end_ : Z) : Z :=
  let mask := u32 (Z.shiftl 1 (end_ - start + 1) - 1) in
  Z.land (Z.shiftr instruction start) mask.

(** [sign_extend]: 7 bits to 16 bits. *)
Definition sign_extend (value : Z) : Z :=
  let value := if Z.land value 64 =? 0 then value else Z.lor value 0xFF80 in
  Z.land value 0xFFFF.

(** ** Machine state *)

Record machine : Type := Machine {
  memory : list Z;
  registers : list Z;
  pc : Z;
  halted : bool
}.

(** Opcodes. *)
Definition ADD : Z := 0.
Definition ADDI : Z := 1.
Definition J : Z := 2.
Definition JAL : Z := 3.
Definition LW : Z := 4.
Definition SW : Z := 5.
Definition JEQ : Z := 6.
Definition SLTI : Z := 7.

(** The three-register instructions (opcode 000): the inner switch on the
    low four bits, guarded by [regDst != 0], then the JR test. *)
Definition exec_add (instruction next_pc : Z) (regs : list Z)
  : result (list Z * Z) :=
  let regA := extract_bits instruction 10 12 in
  let regB := extract_bits instruction 7 9 in
  let regDst := extract_bits instruction 4 6 in
  let last_four_bit := extract_bits instruction 0 3 in
  regs' ← (if regDst =? 0 then mret regs
           else match last_four_bit with
                | 0 => a ← rd regs regA; b ← rd regs regB;
                       wr regs regDst (Z.land (u32 (a + b)) 0xFFFF)
                | 1 => a ← rd regs regA; b ← rd regs regB;
                       wr regs regDst (Z.land (u32 (a - b)) 0xFFFF)
                | 2 => a ← rd regs regA; b ← rd regs regB;
                       wr regs regDst (Z.land (Z.lor a b) 0xFFFF)
                | 3 => a ← rd regs regA; b ← rd regs regB;
                       wr regs regDst (Z.land (Z.land a b) 0xFFFF)
                | 4 => a ← rd regs regA; b ← rd regs regB;
                       wr regs regDst (if a <? b then 1 else 0)
                | _ => mret regs
                end);
  next_pc' ← (if last_four_bit =? 8
              then a ← rd regs' regA; mret (Z.land a 0x1FFF)
              else mret next_pc);
  mret (regs', next_pc').

(** The body of the outer switch: from the fetched word, the address it was
    fetched for and the two arrays to the new arrays and [next_pc]. *)
Definition execute (instruction current_pc : Z) (regs mem : list Z)
  : result (list Z * list Z * Z) :=
  let opcode := extract_bits instruction 13 15 in
  let next_pc := u32 (current_pc + 1) in
  match opcode with
  | 0 (* ADD *) =>
      '(regs', next_pc') ← exec_add instruction next_pc regs;
      mret (regs', mem, next_pc')
  | 1 (* ADDI *) =>
      let regA := extract_bits instruction 10 12 in
      let regDst := extract_bits instruction 7 9 in
      let imm := sign_extend (extract_bits instruction 0 6) in
      regs' ← (if regDst =? 0 then mret regs
               else a ← rd regs regA;
                    wr regs regDst (Z.land (u32 (a + imm)) 0xFFFF));
      mret (regs', mem, next_pc)
  | 2 (* J *) =>
      let imm := extract_bits instruction 0 12 in
      mret (regs, mem, imm)
  | 3 (* JAL *) =>
      let imm := extract_bits instruction 0 12 in
      regs' ← wr regs 7 (Z.land (u32 (current_pc + 1)) 0xFFFF);
      mret (regs', mem, imm)
  | 4 (* LW *) =>
      let regA := extract_bits instruction 10 12 in
      let regDst := extract_bits instruction 7 9 in
      let imm := sign_extend (extract_bits instruction 0 6) in
      a ← rd regs regA;
      let addr := Z.land (u32 (a + imm)) 0x1FFF in
      regs' ← (if regDst =? 0 then mret regs
               else v ← rd mem addr; wr regs regDst v);
      mret (regs', mem, next_pc)
  | 5 (* SW *) =>
      let regA := extract_bits instruction 10 12 in
      let regB := extract_bits instruction 7 9 in
      let imm := sign_extend (extract_bits instruction 0 6) in
      a ← rd regs regA;
      let addr := Z.land (u32 (a + imm)) 0x1FFF in
      b ← rd regs regB;
      mem' ← wr mem addr b;
      mret (regs, mem', next_pc)
  | 6 (* JEQ *) =>
      let regA := extract_bits instruction 10 12 in
      let regB := extract_bits instruction 7 9 in
      let imm := sign_extend (extract_bits instruction 0 6) in
      a ← rd regs regA;
      b ← rd regs regB;
      mret (regs, mem, if a =? b then u32 (current_pc + 1 + imm) else next_pc)
  | 7 (* SLTI *) =>
      let regA := extract_bits instruction 10 12 in
      let regDst := extract_bits instruction 7 9 in
      let imm := sign_extend (extract_bits instruction 0 6) in
      regs' ← (if regDst =? 0 then mret regs
               else a ← rd regs regA;
                    wr regs regDst (if a <? imm then 1 else 0));
      mret (regs', mem, next_pc)
  | _ => Err (UnknownOpcode opcode current_pc)
  end.

(** One iteration of the simulation loop: fetch, decode and execute, then
    zero register 0, compute [halted] and store [next_pc]. *)
Definition cycle (st : machine) : result machine :=
  let current_pc := pc st in
  instruction ← rd (memory st) (current_pc mod MEM_SIZE);
  '(regs', mem', next_pc) ← execute instruction current_pc (registers st) (memory st);
  regs'' ← wr regs' 0 0;
  mret {| memory := mem';
          registers := regs'';
          pc := next_pc;
          halted := bool_decide (next_pc mod MEM_SIZE = current_pc) |}.

(** The state [main] builds around a loaded memory. *)
Definition boot (mem : list Z) : machine :=
  {| memory := mem;
     registers := replicate (Z.to_nat NUM_REGS) 0;
     pc := 0;
     halted := false |}.

(** How a run of the loop ends. *)
Inductive outcome : Type :=
  | Finished (st : machine) (cycles : nat)   (* the loop exited: [print_state], return 0 *)
  | Failed (e : fault) (cycles : nat)        (* EXIT_FAILURE from the default branch, or a fault *)
  | OutOfFuel (st : machine).

(** [while (!halted) { ... }], with fuel; [done] counts the iterations
    already completed. *)
Fixpoint simulate (fuel : nat) (done : nat) (st : machine) : outcome :=
  if halted st then Finished st done
  else match fuel with
       | O => OutOfFuel st
       | S fuel' =>
           match cycle st with
           | Ok st' => simulate fuel' (S done) st'
           | Err e => Failed e done
           end
       end.

(** The state after exactly [n] iterations of the loop, when the loop makes
    that many. *)
Fixpoint after (n : nat) (st : machine) : option machine :=
  match n with
  | O => Some st
  | S n' =>
      if halted st then None
      else match cycle st with
           | Ok st' => after n' st'
           | Err _ => None
           end
  end.

(** ** The loader

    [load_machine_code] reads the file line by line ([getline]); the model
    takes the lines. Each must match, as a whole,
    [^ram\[(\d+)\] = 16'b(\d+);.*$]. *)

Definition code (c : ascii) : Z := Z.of_N (N_of_ascii c).

(** [\d]. *)
Definition is_digit (c : ascii) : bool := (48 <=? code c) && (code c <=? 57).

(** [.] of the ECMAScript grammar: any character but a line terminator. *)
Definition is_any (c : ascii) : bool := negb ((code c =? 10) || (code c =? 13)).

Fixpoint strip_prefix (p s : string) : option string :=
  match p, s with
  | EmptyString, _ => Some s
  | String a p', String b s' => if decide (a = b) then strip_prefix p' s' else None
  | String _ _, EmptyString => None
  end.

(** The longest run of digits at the head of [s], and what follows it. *)
Fixpoint span_digits (s : string) : string * string :=
  match s with
  | EmptyString => (EmptyString, EmptyString)
  | String c s' =>
      if is_digit c
      then let '(d, r) := span_digits s' in (String c d, r)
      else (EmptyString, s)
  end.

Fixpoint all_chars (f : ascii -> bool) (s : string) : bool :=
  match s with
  | EmptyString => true
  | String c s' => f c && all_chars f s'
  end.

(** [\d+]: a digit run of at least one character. Each run of the pattern
    is followed by a character that is no digit, so the greedy match is the
    only one. *)
Definition digits1 (s : string) : option (string * string) :=
  let '(d, r) := span_digits s in
  match d with
  | EmptyString => None
  | _ => Some (d, r)
  end.

(** [regex_match(line, sm, machine_code_re)]: the two captures [sm[1]] and
    [sm[2]]. *)
Definition regex_match (line : string) : option (string * string) :=
  s ← strip_prefix "ram[" line;
  '(sm1, s) ← digits1 s;
  s ← strip_prefix "] = 16'b" s;
  '(sm2, s) ← digits1 s;
  s ← strip_prefix ";" s;
  if all_chars is_any s then Some (sm1, sm2) else None.

(** The exceptions [stoi] throws. *)
Inductive exn : Type := invalid_argument | out_of_range.

(** The digits [strtol] consumes in [base], most significant first; [any]
    records that it consumed one. *)
Fixpoint strtol_digits (base : Z) (s : string) (acc : Z) (any : bool) : Z * bool :=
  match s with
  | EmptyString => (acc, any)
  | String c s' =>
      if is_digit c && (code c - 48 <? base)
      then strtol_digits base s' (acc * base + (code c - 48)) true
      else (acc, any)
  end.

(** [stoi(str, nullptr, base)] on the digit strings the pattern captures (no
    white space, no sign): the value of the leading digits valid in [base];
    [invalid_argument] when there is none, [out_of_range] above [INT_MAX]. *)
Definition stoi (str : string) (base : Z) : exn + Z :=
  let '(v, any) := strtol_digits base str 0 false in
  if negb any then inl invalid_argument
  else if INT_MAX <? v then inl out_of_range
  else inr v.

(** The three messages of the loader, each followed by [exit(1)]. *)
Inductive load_error : Type :=
  | InvalidLineFormat (line : string)
  | OutOfSequence (addr : Z)
  | TooLarge (addr : Z).

Inductive load_result : Type :=
  | Loaded (mem : list Z)
  | LoadExit (e : load_error)    (* message on cerr, exit(1) *)
  | LoadThrow (e : exn).         (* exception of stoi, caught nowhere *)

(** The store [mem[addr] = instr] is guarded by [addr >= MEM_SIZE] just
    above it. *)
Fixpoint load_machine_code (lines : list string) (expected_addr : Z) (mem : list Z)
  : load_result :=
  match lines with
  | [] => Loaded mem
  | line :: lines' =>
      match regex_match line with
      | None => LoadExit (InvalidLineFormat line)
      | Some (sm1, sm2) =>
          match stoi sm1 10 with
          | inl e => LoadThrow e
          | inr addr =>
              match stoi sm2 2 with
              | inl e => LoadThrow e
              | inr instr =>
                  if negb (addr =? expected_addr) then LoadExit (OutOfSequence addr)
                  else if MEM_SIZE <=? addr then LoadExit (TooLarge addr)
                  else load_machine_code lines' (expected_addr + 1)
                         (<[Z.to_nat addr := instr]> mem)
              end
          end
      end
  end.

(** [unsigned memory[MEM_SIZE] = {0}]. *)
Definition zero_memory : list Z := replicate (Z.to_nat MEM_SIZE) 0.

(** How the process ends, from the loader on. *)
Inductive termination : Type :=
  | LoadFailed (e : load_error)
  | Terminated (e : exn)
  | Ran (o : outcome).

(** [main] after the command line is handled. *)
Definition e20sim (fuel : nat) (lines : list string) : termination :=
  match load_machine_code lines 0 zero_memory with
  | Loaded mem => Ran (simulate fuel 0 (boot mem))
  | LoadExit e => LoadFailed e
  | LoadThrow e => Terminated e
  end.

(** The exit code, when the process exits by itself. *)
Definition exit_code (t : termination) : option Z :=
  match t with
  | LoadFailed _ => Some 1
  | Terminated _ => None
  | Ran (Finished _ _) => Some 0
  | Ran (Failed (UnknownOpcode _ _) _) => Some 1
  | Ran _ => None
  end.

(** The number of loop iterations made. *)
Definition cycles_run (t : termination) : nat :=
  match t with
  | Ran (Finished _ n) => n
  | Ran (Failed _ n) => n
  | _ => 0
  end.

Definition loads (lines : list string) (mem : list Z) : Prop :=
  load_machine_code lines 0 zero_memory = Loaded mem.

(** ** The report

    [print_state] writes to [cout]; the model returns the text. Numbers go
    through [operator<<] for [unsigned] (decimal, then lowercase
    hexadecimal after [hex]), fields through [setw] and [setfill], which
    pad on the left up to the width and never cut. *)

Definition tab : string := String "009"%char EmptyString.
Definition endl : string := String "010"%char EmptyString.

(** The character of a digit below 16: [0-9a-f]. *)
Definition digit_char (d : Z) : ascii :=
  ascii_of_N (Z.to_N (if d <? 10 then 48 + d else 87 + d)).

(** The digits of [n] in [base], put in front of [acc]; an [unsigned] has
    at most 32 of them. *)
Fixpoint digits (base : Z) (fuel : nat) (n : Z) (acc : string) : string :=
  match fuel with
  | O => acc
  | S fuel' =>
      let acc' := String (digit_char (n mod base)) acc in
      if n / base =? 0 then acc' else digits base fuel' (n / base) acc'
  end.

(** [cout << n] in [base]. *)
Definition show (base n : Z) : string := digits base 32 n EmptyString.

Fixpoint fill_chars (count : nat) (fill : ascii) : string :=
  match count with
  | O => EmptyString
  | S count' => String fill (fill_chars count' fill)
  end.

(** [cout << setfill(fill) << setw(width) << s]. *)
Definition setw (width : nat) (fill : ascii) (s : string) : string :=
  fill_chars (width - String.length s) fill +:+ s.

(** The loop over the registers, from register [r] on, [count] of them. *)
Fixpoint print_registers (count : nat) (r : Z) (regs : list Z) : result string :=
  match count with
  | O => mret EmptyString
  | S count' =>
      v ← rd regs r;
      rest ← print_registers count' (r + 1) regs;
      mret (tab +:+ "$" +:+ show 10 r +:+ "=" +:+ setw 5 " " (show 10 v) +:+ endl +:+ rest)
  end.

(** The loop over the memory, from word [i] on, [count] of them. *)
Fixpoint print_memory (count : nat) (i : Z) (memory : list Z) : result string :=
  match count with
  | O => mret EmptyString
  | S count' =>
      v ← rd memory i;
      rest ← print_memory count' (i + 1) memory;
      mret (setw 4 "0" (show 16 v) +:+ " "
            +:+ (if (i + 1) mod 8 =? 0 then endl else EmptyString) +:+ rest)
  end.

Definition print_state (pc : Z) (regs memory : list Z) (mem_qty : nat) : result string :=
  r ← print_registers (Z.to_nat NUM_REGS) 0 regs;
  m ← print_memory mem_qty 0 memory;
  mret ("Final state:" +:+ endl
        +:+ tab +:+ "pc=" +:+ setw 5 " " (show 10 pc) +:+ endl
        +:+ r +:+ m +:+ endl).

(** ** The command line and [main] *)

(** [arg.rfind("-", 0) == 0]: the argument starts with a dash. *)
Definition starts_with_dash (arg : string) : bool :=
  match arg with
  | String c _ => bool_decide (c = "-"%char)
  | EmptyString => false
  end.

(** The loop over [argv[1..]]: the three variables it updates. *)
Fixpoint scan_args (args : list string) (filename : option string)
    (do_help arg_error : bool) : option string * bool * bool :=
  match args with
  | [] => (filename, do_help, arg_error)
  | arg :: args' =>
      if starts_with_dash arg
      then if bool_decide (arg = "-h") || bool_decide (arg = "--help")
           then scan_args args' filename true arg_error
           else scan_args args' filename do_help true
      else match filename with
           | None => scan_args args' (Some arg) do_help arg_error
           | Some _ => scan_args args' filename do_help true
           end
  end.

(** How [main] ends. *)
Inductive main_result : Type :=
  | Usage                                  (* usage text on cerr, return 1 *)
  | CannotOpen (filename : string)         (* message on cerr, return 1 *)
  | Ended (t : termination) (out : option string).
                                           (* from the loader on; [out] is the report *)

(** [main], given what opening a file yields ([None]: it does not open;
    otherwise its lines) and the arguments after [argv[0]]. *)
Definition main (open : string -> option (list string)) (fuel : nat)
    (args : list string) : main_result :=
  let '(filename, do_help, arg_error) := scan_args args None false false in
  if arg_error || do_help then Usage
  else match filename with
       | None => Usage
       | Some f =>
           match open f with
           | None => CannotOpen f
           | Some lines =>
               let t := e20sim fuel lines in
               Ended t
                 match t with
                 | Ran (Finished st _) =>
                     match print_state (pc st) (registers st) (memory st) 128 with
                     | Ok text => Some text
                     | Err _ => None
                     end
                 | _ => None
                 end
           end
       end.

(** What [main] returns, when it returns. *)
Definition main_exit_code (r : main_result) : option Z :=
  match r with
  | Usage => Some 1
  | CannotOpen _ => Some 1
  | Ended t _ => exit_code t
  end.

(** * Vocabulary of the properties *)

(** A total array read, for statements: 0 outside the array. *)
Definition reg (a : list Z) (i : Z) : Z := default 0 (a !! Z.to_nat i).

(** The result of [execute] in closed form, with total reads and the masks
    as remainders; [execute_closed_form] proves that [execute] returns it
    whenever the arrays have their sizes. *)
Definition execute_closed (instruction current_pc : Z) (regs mem : list Z)
  : list Z * list Z * Z :=
  let opcode := extract_bits instruction 13 15 in
  let rA := extract_bits instruction 10 12 in
  let rB := extract_bits instruction 7 9 in
  let rD := extract_bits instruction 4 6 in
  let sub := extract_bits instruction 0 3 in
  let imm := sign_extend (extract_bits instruction 0 6) in
  let imm13 := extract_bits instruction 0 12 in
  let a := reg regs rA in
  let b := reg regs rB in
  let next := u32 (current_pc + 1) in
  if opcode =? 0 then
    (if rD =? 0 then regs
     else if sub =? 0 then <[Z.to_nat rD := (a + b) mod 65536]> regs
     else if sub =? 1 then <[Z.to_nat rD := (a - b) mod 65536]> regs
     else if sub =? 2 then <[Z.to_nat rD := Z.lor a b mod 65536]> regs
     else if sub =? 3 then <[Z.to_nat rD := Z.land a b mod 65536]> regs
     else if sub =? 4 then <[Z.to_nat rD := if a <? b then 1 else 0]> regs
     else regs,
     mem,
     if sub =? 8 then a mod 8192 else next)
  else if opcode =? 1 then
    (if rB =? 0 then regs else <[Z.to_nat rB := (a + imm) mod 65536]> regs,
     mem, next)
  else if opcode =? 2 then (regs, mem, imm13)
  else if opcode =? 3 then
    (<[7%nat := (current_pc + 1) mod 65536]> regs, mem, imm13)
  else if opcode =? 4 then
    (if rB =? 0 then regs
     else <[Z.to_nat rB := reg mem ((a + imm) mod 8192)]> regs,
     mem, next)
  else if opcode =? 5 then
    (regs, <[Z.to_nat ((a + imm) mod 8192) := b]> mem, next)
  else if opcode =? 6 then
    (regs, mem, if a =? b then u32 (current_pc + 1 + imm) else next)
  else
    (if rB =? 0 then regs
     else <[Z.to_nat rB := if a <? imm then 1 else 0]> regs,
     mem, next).

(** The arrays have the sizes [main] declares them with. *)
Definition shaped (regs mem : list Z) : Prop :=
  Z.of_nat (length regs) = NUM_REGS /\ Z.of_nat (length mem) = MEM_SIZE.

(** The state one iteration of the loop leaves, in closed form. *)
Definition cycle_closed (st : machine) : machine :=
  let instruction := reg (memory st) (pc st mod MEM_SIZE) in
  let r := execute_closed instruction (pc st) (registers st) (memory st) in
  {| memory := r.1.2;
     registers := <[0%nat := 0]> r.1.1;
     pc := r.2;
     halted := bool_decide (r.2 mod MEM_SIZE = pc st) |}.

Definition shaped_state (st : machine) : Prop :=
  shaped (registers st) (memory st).

(** The next character, if any, is no digit. *)
Definition stops_digits (s : string) : Prop :=
  match s with
  | EmptyString => True
  | String c _ => is_digit c = false
  end.

(** A line the loader takes at address [expected], storing [instr]. *)
Definition line_accepted (expected : Z) (line : string) (instr : Z) : Prop :=
  exists sm1 sm2,
    regex_match line = Some (sm1, sm2)
    /\ stoi sm1 10 = inr expected
    /\ stoi sm2 2 = inr instr
    /\ expected < MEM_SIZE.

(** A line on which the loader reports an error and exits: it does not
    match the pattern, or it matches, both numerals convert, and its
    address is not the expected one or is beyond the memory. *)
Inductive violation (expected : Z) (line : string) : load_error -> Prop :=
  | bad_format :
      regex_match line = None ->
      violation expected line (InvalidLineFormat line)
  | bad_sequence sm1 sm2 addr instr :
      regex_match line = Some (sm1, sm2) ->
      stoi sm1 10 = inr addr -> stoi sm2 2 = inr instr ->
      addr <> expected ->
      violation expected line (OutOfSequence addr)
  | bad_capacity sm1 sm2 instr :
      regex_match line = Some (sm1, sm2) ->
      stoi sm1 10 = inr expected -> stoi sm2 2 = inr instr ->
      MEM_SIZE <= expected ->
      violation expected line (TooLarge expected).

(** Values in [0, B). *)
Definition below (B v : Z) : Prop := 0 <= v < B.

Definition values_below (B : Z) (st : machine) : Prop :=
  Forall (below B) (registers st) /\ Forall (below B) (memory st).

(** [st] is the state of the machine after [n] completed cycles on the
    image [lines]. *)
Definition reachable (lines : list string) (n : nat) (st : machine) : Prop :=
  exists mem, loads lines mem /\ after n (boot mem) = Some st.

(** The image of the one-instruction program [J 0]. *)
Definition jump_to_self : list string := ["ram[0] = 16'b0100000000000000;"].

(** The destination field of the instructions that have one: bits 6..4 of
    the three-register form, bits 9..7 of ADDI, LW and SLTI. *)
Definition regDst_field (instruction : Z) : option Z :=
  match extract_bits instruction 13 15 with
  | 0 => Some (extract_bits instruction 4 6)
  | 1 | 4 | 7 => Some (extract_bits instruction 7 9)
  | _ => None
  end.

(** [ADDI $1, $0, 5; ADD $0, $1, $1; J 2]: the second instruction names
    register 0 as destination of the sum 10. *)
Definition add_to_zero : list string :=
  ["ram[0] = 16'b0010000010000101;";
   "ram[1] = 16'b0000010010000000;";
   "ram[2] = 16'b0100000000000010;"].

Definition add_to_zero_memory : list Z :=
  <[0%nat := 0x2085]> (<[1%nat := 0x0480]> (<[2%nat := 0x4002]> zero_memory)).

(** The states [add_to_zero] reaches after one cycle, before the ADD, and
    after two, behind it. *)
Definition add_to_zero_before : machine :=
  Machine add_to_zero_memory [0; 5; 0; 0; 0; 0; 0; 0] 1 false.

Definition add_to_zero_after : machine :=
  Machine add_to_zero_memory [0; 5; 0; 0; 0; 0; 0; 0] 2 false.

(** [LW $1, 2($0); OR $2, $1, $0] and, at address 2, a literal of seventeen
    digits, 65537. *)
Definition wide_operand : list string :=
  ["ram[0] = 16'b1000000010000010;";
   "ram[1] = 16'b0000010000100010;";
   "ram[2] = 16'b10000000000000001;"].

(** The state [wide_operand] reaches after one cycle: register 1 holds
    65537. *)
Definition wide_operand_state : machine :=
  Machine (<[0%nat := 0x8082]> (<[1%nat := 0x0422]> (<[2%nat := 65537]> zero_memory)))
          [0; 65537; 0; 0; 0; 0; 0; 0] 1 false.

(** What [sign_extend] returns on one seven-bit value, as a test: the
    value itself below 64; from 64 on, the value with 0xFF80 added (equally:
    OR-ed in), which sets bits 7 to 15 and keeps bits 0 to 6. *)
Definition sign_extend_check (v : Z) : bool :=
  if v <? 64
  then negb (Z.testbit v 6) && (sign_extend v =? v)
  else Z.testbit v 6
       && (sign_extend v =? Z.lor v 0xFF80)
       && (sign_extend v =? v + 0xFF80)
       && (sign_extend v =? 65536 + (v - 128))
       && forallb (fun i => Z.testbit (sign_extend v) i) (seqZ 7 9)
       && forallb (fun i => Bool.eqb (Z.testbit (sign_extend v) i) (Z.testbit v i))
            (seqZ 0 7).

(** An image whose binary literal has seventeen digits. *)
Definition wide_literal : list string := ["ram[0] = 16'b10000000000000000;"].

(** [JEQ $0, $0, -1] at address 0. *)
Definition branch_to_self : list string := ["ram[0] = 16'b1100000001111111;"].

(** [ADDI $1, $0, 5] then, at address 1, [SW $1, 1($0)]. *)
Definition store_to_self : list string :=
  ["ram[0] = 16'b0010000010000101;"; "ram[1] = 16'b1010000010000001;"].

(** The state [store_to_self] reaches after one cycle. *)
Definition store_to_self_state : machine :=
  Machine (<[0%nat := 0x2085]> (<[1%nat := 0xA081]> zero_memory))
          [0; 5; 0; 0; 0; 0; 0; 0] 1 false.

Definition is_bit (c : ascii) : bool := (code c =? 48) || (code c =? 49).

(** The image format in the specification's words, for comparison with the
    loader: a line is in order at address [expected] when it matches the
    pattern, its literal has exactly 16 characters, each 0 or 1, its
    address is [expected], and [expected] is below the memory size. *)
Definition spec_line_ok (expected : Z) (line : string) : bool :=
  match regex_match line with
  | Some (sm1, sm2) =>
      (String.length sm2 =? 16)%nat
      && all_chars is_bit sm2
      && match stoi sm1 10 with
         | inr addr => addr =? expected
         | inl _ => false
         end
      && (expected <? MEM_SIZE)
  | None => false
  end.

Fixpoint spec_image_ok (expected : Z) (lines : list string) : bool :=
  match lines with
  | [] => true
  | line :: lines' =>
      spec_line_ok expected line && spec_image_ok (expected + 1) lines'
  end.

(** An image whose literal has three characters. *)
Definition short_literal : list string := ["ram[0] = 16'b101;"].

(** The image of the gap example: addresses 0, 1, 3. *)
Definition gap_image : list string :=
  ["ram[0] = 16'b0010000010000101;";
   "ram[1] = 16'b0010000100000011;";
   "ram[3] = 16'b0100000000000011;"].

(** The seven-bit immediate read as a signed number, -64 .. 63. *)
Definition signed7 (v : Z) : Z := if v <? 64 then v else v - 128.

(** The cycles that raise [halted], read off the instruction: a J or JAL
    whose target is the current [pc], a JR whose register, masked, is the
    current [pc], and a taken JEQ with offset -1 at a [pc] below 8192. *)
Definition halts_here (instruction current_pc : Z) (regs : list Z) : bool :=
  let a := reg regs (extract_bits instruction 10 12) in
  let b := reg regs (extract_bits instruction 7 9) in
  match extract_bits instruction 13 15 with
  | 0 => (extract_bits instruction 0 3 =? 8) && (a mod 8192 =? current_pc)
  | 2 | 3 => extract_bits instruction 0 12 =? current_pc
  | 6 => (a =? b) && (extract_bits instruction 0 6 =? 127) && (current_pc <? 8192)
  | _ => false
  end.

(** [J 2; J 1; JEQ $0, $0, -2]: the branch at address 2 goes back to the
    self-jump at address 1 with PC 65537. *)
Definition late_halt : list string :=
  ["ram[0] = 16'b0100000000000010;";
   "ram[1] = 16'b0100000000000001;";
   "ram[2] = 16'b1100000001111110;"].

(** The state [late_halt] reaches after two cycles. *)
Definition late_halt_state : machine :=
  Machine (<[0%nat := 0x4002]> (<[1%nat := 0x4001]> (<[2%nat := 0xC07E]> zero_memory)))
          [0; 0; 0; 0; 0; 0; 0; 0] 65537 false.

(** [LW $1, 1($0)] and the word 0x1234 behind it. *)
Definition load_next_word : list string :=
  ["ram[0] = 16'b1000000010000001;"; "ram[1] = 16'b0001001000110100;"].

(** [ADDI $1, $0, 7; SW $1, 5($0); LW $2, 5($0)]. *)
Definition store_then_load_image : list string :=
  ["ram[0] = 16'b0010000010000111;";
   "ram[1] = 16'b1010000010000101;";
   "ram[2] = 16'b1000000100000101;"].

Definition store_then_load_memory : list Z :=
  <[0%nat := 0x2087]> (<[1%nat := 0xA085]> (<[2%nat := 0x8105]> zero_memory)).

(** The line [ram[<addr>] = 16'b0;]. *)
Definition zero_line (addr : Z) : string := "ram[" +:+ show 10 addr +:+ "] = 16'b0;".

(** An image of 8193 lines, one more than the memory holds. *)
Definition oversized_image : list string := zero_line <$> seqZ 0 8193.

(** * Properties *)

Ltac split_andb :=
  repeat match goal with
         | H : _ && _ = true |- _ => apply andb_prop in H as [? ?]
         end.

(** ** Bit fields and masks *)

Lemma u32_small z : 0 <= z < 2 ^ 32 -> u32 z = z.
Proof. intros H. unfold u32. apply Z.mod_small. exact H. Qed.

Lemma u32_range z : 0 <= u32 z < 2 ^ 32.
Proof. unfold u32. apply Z.mod_pos_bound. lia. Qed.

(** A field of [w] bits is the quotient by [2^start] modulo [2^w]. *)
Lemma extract_bits_div_mod instruction start end_ :
  0 <= start <= end_ -> end_ - start + 1 <= 32 ->
  extract_bits instruction start end_
  = (instruction / 2 ^ start) mod 2 ^ (end_ - start + 1).
Proof.
  intros Hse Hw. unfold extract_bits.
  set (w := end_ - start + 1) in *.
  assert (Hones : Z.shiftl 1 w - 1 = Z.ones w).
  { rewrite Z.ones_equiv, Z.shiftl_mul_pow2 by lia. lia. }
  rewrite Hones, u32_small.
  - rewrite Z.land_ones by lia. rewrite Z.shiftr_div_pow2 by lia. reflexivity.
  - rewrite Z.ones_equiv.
    assert (0 < 2 ^ w) by (apply Z.pow_pos_nonneg; lia).
    assert (2 ^ w <= 2 ^ 32) by (apply Z.pow_le_mono_r; lia).
    lia.
Qed.

Lemma extract_bits_range instruction start end_ :
  0 <= start <= end_ -> end_ - start + 1 <= 32 ->
  0 <= extract_bits instruction start end_ < 2 ^ (end_ - start + 1).
Proof.
  intros Hse Hw. rewrite extract_bits_div_mod by assumption.
  apply Z.mod_pos_bound. apply Z.pow_pos_nonneg; lia.
Qed.

(** The three-bit fields: opcode and register numbers. *)
Lemma field3_range instruction start :
  0 <= start -> 0 <= extract_bits instruction start (start + 2) < 8.
Proof.
  intros Hs.
  pose proof (extract_bits_range instruction start (start + 2)) as H.
  replace (start + 2 - start + 1) with 3 in H by lia.
  apply H; lia.
Qed.

Lemma mask16 x : Z.land x 0xFFFF = x mod 65536.
Proof. change 0xFFFF with (Z.ones 16). rewrite Z.land_ones by lia. reflexivity. Qed.

Lemma mask13 x : Z.land x 0x1FFF = x mod 8192.
Proof. change 0x1FFF with (Z.ones 13). rewrite Z.land_ones by lia. reflexivity. Qed.

(** The 32-bit wrap does not show under a narrower mask. *)
Lemma u32_mod_divide x m : (m | 2 ^ 32) -> u32 x mod m = x mod m.
Proof. intros Hd. unfold u32. apply Z.mod_mod_divide. exact Hd. Qed.

Lemma mask16_u32 x : Z.land (u32 x) 0xFFFF = x mod 65536.
Proof.
  rewrite mask16. apply u32_mod_divide. exists 65536. reflexivity.
Qed.

Lemma mask13_u32 x : Z.land (u32 x) 0x1FFF = x mod 8192.
Proof.
  rewrite mask13. apply u32_mod_divide. exists 524288. reflexivity.
Qed.

Lemma mask16_range x : 0 <= Z.land x 0xFFFF < 65536.
Proof. rewrite mask16. apply Z.mod_pos_bound. lia. Qed.

Lemma mask13_range x : 0 <= Z.land x 0x1FFF < 8192.
Proof. rewrite mask13. apply Z.mod_pos_bound. lia. Qed.

Lemma MEM_SIZE_eq : MEM_SIZE = 8192.
Proof. reflexivity. Qed.

(** ** Array accesses *)

Lemma bind_Ok {A B} (f : A -> result B) (a : A) : (Ok a ≫= f) = f a.
Proof. reflexivity. Qed.

Lemma bind_inv {A B} (f : A -> result B) (m : result A) (b : B) :
  (m ≫= f) = Ok b -> exists a, m = Ok a /\ f a = Ok b.
Proof. destruct m as [a | e]; [eauto | discriminate]. Qed.

Lemma rd_Ok (a : list Z) i v : rd a i = Ok v <-> a !! Z.to_nat i = Some v.
Proof.
  unfold rd. destruct (a !! Z.to_nat i) as [w |]; split; intros H;
    try discriminate; congruence.
Qed.

Lemma rd_in_range (a : list Z) i :
  0 <= i < Z.of_nat (length a) -> exists v, rd a i = Ok v /\ a !! Z.to_nat i = Some v.
Proof.
  intros Hi. destruct (lookup_lt_is_Some_2 a (Z.to_nat i)) as [v Hv]; [lia |].
  exists v. split; [apply rd_Ok |]; exact Hv.
Qed.

Lemma wr_Ok (a a' : list Z) i v :
  wr a i v = Ok a' <-> (Z.to_nat i < length a)%nat /\ a' = <[Z.to_nat i := v]> a.
Proof.
  unfold wr. destruct (decide _) as [Hlt | Hge]; split.
  - intros [= <-]. auto.
  - intros [_ ->]. reflexivity.
  - discriminate.
  - intros [Hlt _]. contradiction.
Qed.

Lemma wr_in_range (a : list Z) i v :
  0 <= i < Z.of_nat (length a) -> wr a i v = Ok (<[Z.to_nat i := v]> a).
Proof. intros Hi. apply wr_Ok. split; [lia | reflexivity]. Qed.

(** ** A closed form of [execute]

    With eight registers and 8192 memory words no access of [execute] is
    out of range, and its result is [execute_closed]. *)

Lemma rd_reg (a : list Z) i :
  0 <= i < Z.of_nat (length a) -> rd a i = Ok (reg a i).
Proof.
  intros Hi. destruct (rd_in_range a i Hi) as (v & Hrd & Hl).
  unfold reg. rewrite Hl. exact Hrd.
Qed.

Lemma reg_lookup (a : list Z) i :
  0 <= i < Z.of_nat (length a) -> a !! Z.to_nat i = Some (reg a i).
Proof. intros Hi. apply rd_Ok, rd_reg, Hi. Qed.

Ltac field_ranges instruction :=
  pose proof (field3_range instruction 13 ltac:(lia));
  pose proof (field3_range instruction 10 ltac:(lia));
  pose proof (field3_range instruction 7 ltac:(lia));
  pose proof (field3_range instruction 4 ltac:(lia));
  pose proof (extract_bits_range instruction 0 3 ltac:(lia) ltac:(lia));
  change (13 + 2) with 15 in *; change (10 + 2) with 12 in *;
  change (7 + 2) with 9 in *; change (4 + 2) with 6 in *;
  change (2 ^ (3 - 0 + 1)) with 16 in *.

Ltac run_binds :=
  unfold mbind, result_bind, mret, result_ret; cbv beta iota.

Lemma exec_add_closed instruction next_pc regs :
  Z.of_nat (length regs) = NUM_REGS ->
  let rA := extract_bits instruction 10 12 in
  let rB := extract_bits instruction 7 9 in
  let rD := extract_bits instruction 4 6 in
  let sub := extract_bits instruction 0 3 in
  let a := reg regs rA in
  let b := reg regs rB in
  exec_add instruction next_pc regs
  = Ok (if rD =? 0 then regs
        else if sub =? 0 then <[Z.to_nat rD := (a + b) mod 65536]> regs
        else if sub =? 1 then <[Z.to_nat rD := (a - b) mod 65536]> regs
        else if sub =? 2 then <[Z.to_nat rD := Z.lor a b mod 65536]> regs
        else if sub =? 3 then <[Z.to_nat rD := Z.land a b mod 65536]> regs
        else if sub =? 4 then <[Z.to_nat rD := if a <? b then 1 else 0]> regs
        else regs,
        if sub =? 8 then a mod 8192 else next_pc).
Proof.
  intros Hlen. unfold NUM_REGS in Hlen.
  field_ranges instruction. unfold exec_add.
  cbv zeta.
  rewrite !(rd_reg regs) by lia. run_binds.
  rewrite !(wr_in_range regs) by lia.
  rewrite !mask16_u32, !mask16.
  set (rA := extract_bits instruction 10 12) in *.
  set (rB := extract_bits instruction 7 9) in *.
  set (rD := extract_bits instruction 4 6) in *.
  set (sub := extract_bits instruction 0 3) in *.
  destruct (rD =? 0) eqn:HD.
  - run_binds. rewrite (rd_reg regs) by lia. rewrite mask13.
    destruct (sub =? 8); reflexivity.
  - assert (Hsub : sub = 0 \/ sub = 1 \/ sub = 2 \/ sub = 3 \/ sub = 4 \/ sub = 5
                   \/ sub = 6 \/ sub = 7 \/ sub = 8 \/ sub = 9 \/ sub = 10
                   \/ sub = 11 \/ sub = 12 \/ sub = 13 \/ sub = 14 \/ sub = 15) by lia.
    clearbody sub.
    repeat (destruct Hsub as [-> | Hsub]); try subst sub; run_binds;
      try reflexivity.
    rewrite (rd_reg regs) by lia. rewrite mask13. reflexivity.
Qed.

Lemma execute_closed_form instruction current_pc regs mem :
  shaped regs mem ->
  execute instruction current_pc regs mem
  = Ok (execute_closed instruction current_pc regs mem).
Proof.
  intros [Hregs Hmem].
  pose proof (exec_add_closed instruction (u32 (current_pc + 1)) regs Hregs) as Hadd.
  unfold NUM_REGS in Hregs. rewrite MEM_SIZE_eq in Hmem.
  field_ranges instruction.
  unfold execute, execute_closed. cbv zeta in *.
  set (imm := sign_extend (extract_bits instruction 0 6)).
  pose proof (mask13_range (u32 (reg regs (extract_bits instruction 10 12) + imm))) as Haddr.
  rewrite !(rd_reg regs) by lia. run_binds.
  rewrite !(rd_reg mem) by lia. run_binds.
  rewrite !(wr_in_range regs) by lia.
  rewrite !(wr_in_range mem) by lia.
  rewrite !mask16_u32, !mask13_u32.
  set (opcode := extract_bits instruction 13 15) in *.
  assert (Hop : opcode = 0 \/ opcode = 1 \/ opcode = 2 \/ opcode = 3 \/ opcode = 4
                \/ opcode = 5 \/ opcode = 6 \/ opcode = 7) by lia.
  clearbody opcode.
  repeat (destruct Hop as [-> | Hop]); try subst opcode; cbv beta iota.
  - rewrite Hadd. reflexivity.
  - destruct (extract_bits instruction 7 9 =? 0); reflexivity.
  - reflexivity.
  - reflexivity.
  - destruct (extract_bits instruction 7 9 =? 0); reflexivity.
  - reflexivity.
  - reflexivity.
  - destruct (extract_bits instruction 7 9 =? 0); reflexivity.
Qed.

Lemma execute_closed_shaped instruction current_pc regs mem :
  shaped regs mem ->
  shaped (execute_closed instruction current_pc regs mem).1.1
         (execute_closed instruction current_pc regs mem).1.2.
Proof.
  intros [Hregs Hmem]. unfold execute_closed. cbv zeta.
  repeat case_match; simpl; split; rewrite ?length_insert; assumption.
Qed.

Lemma fetch_in_range st :
  shaped_state st -> 0 <= pc st mod MEM_SIZE < Z.of_nat (length (memory st)).
Proof.
  intros [_ Hmem]. rewrite Hmem. apply Z.mod_pos_bound. reflexivity.
Qed.

Lemma cycle_closed_form st :
  shaped_state st -> cycle st = Ok (cycle_closed st).
Proof.
  intros Hsh. unfold cycle, cycle_closed. cbv zeta.
  rewrite (rd_reg (memory st)) by (apply fetch_in_range, Hsh). run_binds.
  rewrite (execute_closed_form _ _ _ _ Hsh).
  pose proof (execute_closed_shaped (reg (memory st) (pc st mod MEM_SIZE))
                (pc st) _ _ Hsh) as [Hregs _].
  destruct (execute_closed _ _ _ _) as [[regs' mem'] next_pc]. simpl in *.
  rewrite wr_in_range by (rewrite Hregs; unfold NUM_REGS; lia).
  reflexivity.
Qed.

Lemma cycle_closed_shaped st : shaped_state st -> shaped_state (cycle_closed st).
Proof.
  intros Hsh. unfold shaped_state, cycle_closed. cbn [registers memory].
  pose proof (execute_closed_shaped (reg (memory st) (pc st mod MEM_SIZE))
                (pc st) _ _ Hsh) as [Hregs Hmem].
  split; rewrite ?length_insert; assumption.
Qed.

Lemma cycle_shaped st st' :
  shaped_state st -> cycle st = Ok st' -> shaped_state st'.
Proof.
  intros Hsh Hc. rewrite (cycle_closed_form st Hsh) in Hc.
  injection Hc as <-. apply cycle_closed_shaped, Hsh.
Qed.

(** ** Runs of the loop *)

Lemma after_invariant (P : machine -> Prop) :
  (forall st st', P st -> halted st = false -> cycle st = Ok st' -> P st') ->
  forall n st st', P st -> after n st = Some st' -> P st'.
Proof.
  intros Hstep n. induction n as [| n IH]; intros st st' HP Hafter; simpl in Hafter.
  - injection Hafter as <-. exact HP.
  - destruct (halted st) eqn:Hh; [discriminate |].
    destruct (cycle st) as [st1 | e] eqn:Hc; [| discriminate].
    apply (IH st1 st'); [| exact Hafter]. apply (Hstep st st1); assumption.
Qed.

Lemma after_last n st st'' :
  after (S n) st = Some st'' ->
  exists st', after n st = Some st' /\ halted st' = false /\ cycle st' = Ok st''.
Proof.
  revert st. induction n as [| n IH]; intros st Hafter.
  - simpl in Hafter. destruct (halted st) eqn:Hh; [discriminate |].
    destruct (cycle st) as [st1 | e] eqn:Hc; [| discriminate].
    injection Hafter as <-. exists st. simpl. auto.
  - change (after (S (S n)) st) with
      (if halted st then None
       else match cycle st with Ok st1 => after (S n) st1 | Err _ => None end)
      in Hafter.
    destruct (halted st) eqn:Hh; [discriminate |].
    destruct (cycle st) as [st1 | e] eqn:Hc; [| discriminate].
    destruct (IH st1 Hafter) as (st' & H1 & H2 & H3).
    exists st'. simpl. rewrite Hh, Hc. auto.
Qed.

Lemma boot_shaped mem :
  Z.of_nat (length mem) = MEM_SIZE -> shaped_state (boot mem).
Proof.
  intros Hmem. split; [reflexivity | exact Hmem].
Qed.

Lemma after_shaped n st st' :
  shaped_state st -> after n st = Some st' -> shaped_state st'.
Proof.
  apply (after_invariant shaped_state). intros s s' Hs _ Hc.
  exact (cycle_shaped s s' Hs Hc).
Qed.

(** The loop leaves only through its test: a finished run ends in a state
    with [halted] set, and on well-shaped states it never fails. *)
Lemma simulate_finished fuel done st st' n :
  simulate fuel done st = Finished st' n -> halted st' = true.
Proof.
  revert done st. induction fuel as [| fuel IH]; intros done st H; simpl in H.
  - destruct (halted st) eqn:Hh; [| discriminate]. injection H as <- _. exact Hh.
  - destruct (halted st) eqn:Hh.
    + injection H as <- _. exact Hh.
    + destruct (cycle st) as [st1 | e]; [| discriminate]. exact (IH _ _ H).
Qed.

Lemma simulate_never_fails fuel done st e n :
  shaped_state st -> simulate fuel done st <> Failed e n.
Proof.
  revert done st. induction fuel as [| fuel IH]; intros done st Hsh H; simpl in H.
  - destruct (halted st); discriminate.
  - destruct (halted st); [discriminate |].
    rewrite (cycle_closed_form st Hsh) in H.
    exact (IH _ _ (cycle_closed_shaped st Hsh) H).
Qed.

(** ** The line pattern *)

Local Arguments append : simpl nomatch.

Lemma strip_prefix_spec p s r : strip_prefix p s = Some r <-> s = p +:+ r.
Proof.
  revert s. induction p as [| a p IH]; intros s; simpl.
  - split; congruence.
  - destruct s as [| b s].
    + split; discriminate.
    + destruct (decide (a = b)) as [-> | Hne].
      * rewrite IH. split; [intros -> | intros [= ->]]; reflexivity.
      * split; [discriminate | intros [= <- _]; contradiction].
Qed.

Lemma span_digits_spec s d r :
  span_digits s = (d, r) ->
  s = d +:+ r /\ all_chars is_digit d = true /\ stops_digits r.
Proof.
  revert d r. induction s as [| c s IH]; intros d r H; simpl in H.
  - injection H as <- <-. simpl. auto.
  - destruct (is_digit c) eqn:Hc.
    + destruct (span_digits s) as [d' r'] eqn:Hs. injection H as <- <-.
      destruct (IH d' r' eq_refl) as (-> & Hall & Hstop).
      simpl. rewrite Hc, Hall. auto.
    + injection H as <- <-. simpl. rewrite Hc. auto.
Qed.

Lemma span_digits_app d r :
  all_chars is_digit d = true -> stops_digits r -> span_digits (d +:+ r) = (d, r).
Proof.
  intros Hall Hstop. induction d as [| c d IH]; simpl in *.
  - destruct r as [| c r]; [reflexivity |]. simpl in *. rewrite Hstop. reflexivity.
  - apply andb_prop in Hall as [Hc Hall]. rewrite Hc, (IH Hall). reflexivity.
Qed.

Lemma digits1_spec s d r :
  digits1 s = Some (d, r) <->
  s = d +:+ r /\ d <> EmptyString /\ all_chars is_digit d = true /\ stops_digits r.
Proof.
  unfold digits1. split.
  - destruct (span_digits s) as [d' r'] eqn:Hs.
    destruct (span_digits_spec s d' r' Hs) as (-> & Hall & Hstop).
    destruct d' as [| c d']; [discriminate |]. intros [= <- <-].
    repeat split; [discriminate | exact Hall | exact Hstop].
  - intros (-> & Hne & Hall & Hstop). rewrite (span_digits_app d r Hall Hstop).
    destruct d; [contradiction | reflexivity].
Qed.

(** [regex_match] accepts exactly the lines
    [ram[<digits>] = 16'b<digits>;<rest>], with both digit runs non-empty
    and no line terminator in [<rest>]; the captures are the two runs. *)
Lemma regex_match_spec line sm1 sm2 :
  regex_match line = Some (sm1, sm2) <->
  exists rest,
    line = "ram[" +:+ sm1 +:+ "] = 16'b" +:+ sm2 +:+ ";" +:+ rest
    /\ sm1 <> EmptyString /\ all_chars is_digit sm1 = true
    /\ sm2 <> EmptyString /\ all_chars is_digit sm2 = true
    /\ all_chars is_any rest = true.
Proof.
  unfold regex_match. split.
  - intros H.
    apply bind_Some in H as (s1 & H1 & H). apply strip_prefix_spec in H1.
    apply bind_Some in H as ([d1 s2] & H2 & H).
    apply digits1_spec in H2 as (-> & Hne1 & Hd1 & _).
    apply bind_Some in H as (s3 & H3 & H). apply strip_prefix_spec in H3.
    apply bind_Some in H as ([d2 s4] & H4 & H).
    apply digits1_spec in H4 as (-> & Hne2 & Hd2 & _).
    apply bind_Some in H as (s5 & H5 & H). apply strip_prefix_spec in H5.
    destruct (all_chars is_any s5) eqn:H6; [| discriminate].
    injection H as <- <-. exists s5. subst. auto 10.
  - intros (rest & -> & Hne1 & Hd1 & Hne2 & Hd2 & Hrest).
    apply bind_Some. eexists. split; [apply strip_prefix_spec; reflexivity |].
    apply bind_Some. exists (sm1, "] = 16'b" +:+ sm2 +:+ ";" +:+ rest).
    split; [apply digits1_spec; repeat split; auto |].
    apply bind_Some. eexists. split; [apply strip_prefix_spec; reflexivity |].
    apply bind_Some. exists (sm2, ";" +:+ rest).
    split; [apply digits1_spec; repeat split; auto |].
    apply bind_Some. eexists. split; [apply strip_prefix_spec; reflexivity |].
    rewrite Hrest. reflexivity.
Qed.

(** ** Numerals *)

Lemma is_digit_code c : is_digit c = true -> 0 <= code c - 48 <= 9.
Proof. unfold is_digit. intros H. apply andb_prop in H as [H1 H2]. lia. Qed.

Lemma strtol_digits_lower base s acc any v any' :
  0 <= base -> 0 <= acc ->
  strtol_digits base s acc any = (v, any') -> 0 <= v.
Proof.
  intros Hb. revert acc any. induction s as [| c s IH]; intros acc any Hacc H; simpl in H.
  - injection H as <- _. exact Hacc.
  - destruct (is_digit c) eqn:Hc; simpl in H.
    + destruct (code c - 48 <? base); [| injection H as <- _; exact Hacc].
      apply is_digit_code in Hc. eapply IH; [| exact H]. nia.
    + injection H as <- _. exact Hacc.
Qed.

Lemma stoi_range str base v : 0 <= base -> stoi str base = inr v -> 0 <= v <= INT_MAX.
Proof.
  intros Hb. unfold stoi.
  destruct (strtol_digits base str 0 false) as [w any] eqn:Hs.
  pose proof (strtol_digits_lower base str 0 false w any Hb ltac:(lia) Hs).
  destruct any; simpl; [| discriminate].
  destruct (INT_MAX <? w) eqn:Hmax; [discriminate |]. intros [= <-]. lia.
Qed.

Lemma strtol_digits_upper base s acc any v any' :
  1 <= base -> 0 <= acc ->
  strtol_digits base s acc any = (v, any') ->
  v < (acc + 1) * base ^ Z.of_nat (String.length s).
Proof.
  intros Hb. revert acc any. induction s as [| c s IH]; intros acc any Hacc H.
  - simpl in H. injection H as <- _. simpl. lia.
  - assert (Hpow : base ^ Z.of_nat (String.length (String c s))
                   = base * base ^ Z.of_nat (String.length s)).
    { cbn [String.length]. rewrite Nat2Z.inj_succ, Z.pow_succ_r by lia. reflexivity. }
    assert (Hpos : 1 <= base ^ Z.of_nat (String.length s))
      by (pose proof (Z.pow_pos_nonneg base (Z.of_nat (String.length s))); lia).
    rewrite Hpow. simpl in H.
    destruct (is_digit c && (code c - 48 <? base)) eqn:Hc.
    + apply andb_prop in Hc as [Hd Hlt]. apply is_digit_code in Hd.
      apply IH in H; [| nia]. nia.
    + injection H as <- _. nia.
Qed.

Lemma strtol_digits_any base s acc v any' :
  strtol_digits base s acc true = (v, any') -> any' = true.
Proof.
  revert acc. induction s as [| c s IH]; intros acc H; simpl in H.
  - congruence.
  - destruct (is_digit c && (code c - 48 <? base)); [exact (IH _ H) | congruence].
Qed.

Lemma is_bit_digit c : is_bit c = true -> is_digit c && (code c - 48 <? 2) = true.
Proof.
  unfold is_bit, is_digit. intros H. apply orb_prop in H as [H | H];
    apply Z.eqb_eq in H; rewrite H; reflexivity.
Qed.

(** A binary literal of at most 16 characters that starts with a binary
    digit converts to a 16-bit value. *)
Lemma stoi_short_literal c s :
  is_bit c = true -> (String.length (String c s) <= 16)%nat ->
  exists v, stoi (String c s) 2 = inr v /\ 0 <= v < 65536.
Proof.
  intros Hc Hlen. unfold stoi.
  destruct (strtol_digits 2 (String c s) 0 false) as [v any] eqn:Hs.
  pose proof (strtol_digits_lower 2 _ 0 false v any ltac:(lia) ltac:(lia) Hs) as Hlo.
  pose proof (strtol_digits_upper 2 _ 0 false v any ltac:(lia) ltac:(lia) Hs) as Hup.
  assert (Hpow : 2 ^ Z.of_nat (String.length (String c s)) <= 2 ^ 16)
    by (apply Z.pow_le_mono_r; lia).
  change (2 ^ 16) with 65536 in Hpow.
  simpl in Hs. rewrite (is_bit_digit c Hc) in Hs.
  apply strtol_digits_any in Hs as ->. simpl.
  destruct (INT_MAX <? v) eqn:Hmax; [unfold INT_MAX in Hmax; lia |].
  exists v. split; [reflexivity | lia].
Qed.

(** ** The loader, line by line *)

Lemma load_cons_accepted line lines expected mem instr :
  line_accepted expected line instr ->
  load_machine_code (line :: lines) expected mem
  = load_machine_code lines (expected + 1) (<[Z.to_nat expected := instr]> mem).
Proof.
  intros (sm1 & sm2 & Hre & Ha & Hi & Hlt). simpl. rewrite Hre, Ha, Hi.
  rewrite Z.eqb_refl. simpl.
  destruct (MEM_SIZE <=? expected) eqn:Hle; [lia | reflexivity].
Qed.

Lemma load_cons_Loaded line lines expected mem mem' :
  load_machine_code (line :: lines) expected mem = Loaded mem' ->
  exists instr,
    line_accepted expected line instr
    /\ load_machine_code lines (expected + 1) (<[Z.to_nat expected := instr]> mem)
       = Loaded mem'.
Proof.
  simpl. intros H.
  destruct (regex_match line) as [[sm1 sm2] |] eqn:Hre; [| discriminate].
  destruct (stoi sm1 10) as [e | addr] eqn:Ha; [discriminate |].
  destruct (stoi sm2 2) as [e | instr] eqn:Hi; [discriminate |].
  destruct (addr =? expected) eqn:Heq; simpl in H; [| discriminate].
  apply Z.eqb_eq in Heq. subst addr.
  destruct (MEM_SIZE <=? expected) eqn:Hle; [discriminate |].
  exists instr. split; [| exact H]. exists sm1, sm2. repeat split; auto. lia.
Qed.

Lemma load_violation line lines expected mem e :
  violation expected line e ->
  load_machine_code (line :: lines) expected mem = LoadExit e.
Proof.
  intros Hv. simpl.
  destruct Hv as [Hre | sm1 sm2 addr instr Hre Ha Hi Hne | sm1 sm2 instr Hre Ha Hi Hge].
  - rewrite Hre. reflexivity.
  - rewrite Hre, Ha, Hi. destruct (addr =? expected) eqn:Heq; [lia | reflexivity].
  - rewrite Hre, Ha, Hi, Z.eqb_refl. simpl.
    destruct (MEM_SIZE <=? expected) eqn:Hle; [reflexivity | lia].
Qed.

Lemma load_length lines expected mem mem' :
  load_machine_code lines expected mem = Loaded mem' -> length mem' = length mem.
Proof.
  revert expected mem. induction lines as [| line lines IH]; intros expected mem H.
  - simpl in H. congruence.
  - apply load_cons_Loaded in H as (instr & _ & H).
    rewrite (IH _ _ H). apply length_insert.
Qed.

Lemma load_app good lines expected mem mem1 :
  load_machine_code good expected mem = Loaded mem1 ->
  load_machine_code (good ++ lines) expected mem
  = load_machine_code lines (expected + Z.of_nat (length good)) mem1.
Proof.
  revert expected mem. induction good as [| line good IH]; intros expected mem H.
  - simpl in H. injection H as <-. simpl. f_equal. lia.
  - apply load_cons_Loaded in H as (instr & Hacc & H).
    change ((line :: good) ++ lines) with (line :: (good ++ lines)).
    rewrite (load_cons_accepted _ _ _ _ _ Hacc), (IH _ _ H).
    f_equal. simpl length. lia.
Qed.

(** The loader succeeds exactly when it takes every line at its index. *)
Lemma load_Loaded_iff lines expected mem :
  (exists mem', load_machine_code lines expected mem = Loaded mem') <->
  (forall i line, lines !! i = Some line ->
     exists instr, line_accepted (expected + Z.of_nat i) line instr).
Proof.
  revert expected mem. induction lines as [| l lines IH]; intros expected mem.
  - split; [intros _ i line H; discriminate | intros _; simpl; eauto].
  - split.
    + intros [mem' H] i line Hi.
      apply load_cons_Loaded in H as (instr & Hacc & H).
      destruct i as [| i]; simpl in Hi.
      * injection Hi as <-. exists instr.
        replace (expected + Z.of_nat 0) with expected by lia. exact Hacc.
      * destruct (proj1 (IH _ _) (ex_intro _ mem' H) i line Hi) as [w Hw].
        exists w. replace (expected + Z.of_nat (S i)) with (expected + 1 + Z.of_nat i) by lia.
        exact Hw.
    + intros Hall. destruct (Hall 0%nat l eq_refl) as [instr Hacc].
      replace (expected + Z.of_nat 0) with expected in Hacc by lia.
      rewrite (load_cons_accepted _ _ _ _ _ Hacc). apply IH.
      intros i line Hi. destruct (Hall (S i) line Hi) as [w Hw]. exists w.
      replace (expected + 1 + Z.of_nat i) with (expected + Z.of_nat (S i)) by lia.
      exact Hw.
Qed.

Lemma zero_memory_length : Z.of_nat (length zero_memory) = MEM_SIZE.
Proof. unfold zero_memory. rewrite length_replicate. apply Z2Nat.id. discriminate. Qed.

Lemma loads_shaped lines mem : loads lines mem -> shaped_state (boot mem).
Proof.
  intros H. apply boot_shaped. rewrite (load_length _ _ _ _ H).
  exact zero_memory_length.
Qed.

(** ** Bounds on the stored values *)

Section Bounded.

Variable B : Z.
Hypothesis B_lower : 65536 <= B.

Lemma below_mod16 x : below B (x mod 65536).
Proof. pose proof (Z.mod_pos_bound x 65536 ltac:(lia)). unfold below. lia. Qed.

Lemma below_0 : below B 0.
Proof. unfold below. lia. Qed.

Lemma below_1 : below B 1.
Proof. unfold below. lia. Qed.

Lemma below_reg (a : list Z) i : Forall (below B) a -> below B (reg a i).
Proof.
  intros Ha. unfold reg. destruct (a !! Z.to_nat i) as [v |] eqn:Hv; simpl.
  - exact (Forall_lookup_1 _ _ _ _ Ha Hv).
  - unfold below. lia.
Qed.

Lemma execute_closed_below instruction current_pc regs mem :
  Forall (below B) regs -> Forall (below B) mem ->
  Forall (below B) (execute_closed instruction current_pc regs mem).1.1
  /\ Forall (below B) (execute_closed instruction current_pc regs mem).1.2.
Proof.
  intros Hregs Hmem. unfold execute_closed. cbv zeta.
  repeat case_match; simpl; split; try assumption;
    apply Forall_insert; try assumption;
    auto using below_mod16, below_reg, below_0, below_1.
Qed.

Lemma cycle_closed_below st : values_below B st -> values_below B (cycle_closed st).
Proof.
  intros [Hregs Hmem].
  destruct (execute_closed_below (reg (memory st) (pc st mod MEM_SIZE)) (pc st)
              _ _ Hregs Hmem) as [Hr Hm].
  split; unfold cycle_closed; cbn [registers memory]; [| exact Hm].
  apply Forall_insert; [exact Hr |]. unfold below. lia.
Qed.

Lemma boot_below mem : Forall (below B) mem -> values_below B (boot mem).
Proof.
  intros Hmem. split; [| exact Hmem]. simpl. repeat constructor; unfold below; lia.
Qed.

End Bounded.

(** ** Images with 16-character binary literals *)

Lemma spec_line_accepted expected line :
  spec_line_ok expected line = true ->
  exists instr, line_accepted expected line instr /\ below 65536 instr.
Proof.
  unfold spec_line_ok. intros H.
  destruct (regex_match line) as [[sm1 sm2] |] eqn:Hre; [| discriminate].
  split_andb.
  destruct (stoi sm1 10) as [e | addr] eqn:Ha; [discriminate |].
  match goal with Heq : (addr =? expected) = true |- _ => apply Z.eqb_eq in Heq; subst addr end.
  match goal with Hl : (String.length sm2 =? 16)%nat = true |- _ =>
    apply Nat.eqb_eq in Hl; rename Hl into Hlen end.
  destruct sm2 as [| c sm2]; [discriminate |].
  match goal with Hb : all_chars is_bit (String c sm2) = true |- _ =>
    simpl in Hb; apply andb_prop in Hb as [Hc _] end.
  destruct (stoi_short_literal c sm2 Hc ltac:(lia)) as (v & Hv & Hrange).
  exists v. split; [| exact Hrange].
  exists sm1, (String c sm2). repeat split; try assumption. lia.
Qed.

(** Every image of that form is accepted, and its words are 16-bit. *)
Lemma spec_image_loads lines expected mem :
  spec_image_ok expected lines = true ->
  exists mem',
    load_machine_code lines expected mem = Loaded mem'
    /\ (Forall (below 65536) mem -> Forall (below 65536) mem').
Proof.
  revert expected mem. induction lines as [| line lines IH]; intros expected mem H.
  - exists mem. split; [reflexivity | auto].
  - simpl in H. apply andb_prop in H as [Hline Hrest].
    destruct (spec_line_accepted _ _ Hline) as (instr & Hacc & Hinstr).
    destruct (IH (expected + 1) (<[Z.to_nat expected := instr]> mem) Hrest)
      as (mem' & Hload & Hbelow).
    exists mem'. split.
    + rewrite (load_cons_accepted _ _ _ _ _ Hacc). exact Hload.
    + intros Hmem. apply Hbelow, Forall_insert; assumption.
Qed.

Lemma zero_memory_below B : 0 < B -> Forall (below B) zero_memory.
Proof. intros HB. apply Forall_replicate. unfold below. lia. Qed.

Lemma execute_closed_pc instruction current_pc regs mem :
  0 <= (execute_closed instruction current_pc regs mem).2 < 2 ^ 32.
Proof.
  pose proof (extract_bits_range instruction 0 12 ltac:(lia) ltac:(lia)) as H13.
  change (2 ^ (12 - 0 + 1)) with 8192 in H13.
  pose proof (u32_range (current_pc + 1)).
  pose proof (u32_range (current_pc + 1 + sign_extend (extract_bits instruction 0 6))).
  pose proof (Z.mod_pos_bound (reg regs (extract_bits instruction 10 12)) 8192 ltac:(lia)).
  unfold execute_closed. cbv zeta. repeat case_match; simpl; lia.
Qed.

(** ** Reachable states *)

Lemma reachable_shaped lines n st : reachable lines n st -> shaped_state st.
Proof.
  intros (mem & Hload & Hafter).
  exact (after_shaped n _ _ (loads_shaped _ _ Hload) Hafter).
Qed.

Lemma simulate_halted fuel done st :
  halted st = true -> simulate fuel done st = Finished st done.
Proof. intros H. destruct fuel; simpl; rewrite H; reflexivity. Qed.

Lemma simulate_cycle fuel done st st' :
  halted st = false -> cycle st = Ok st' ->
  simulate (S fuel) done st = simulate fuel (S done) st'.
Proof. intros Hh Hc. simpl. rewrite Hh, Hc. reflexivity. Qed.

(** What a cycle does in a reachable state: it fetches at [pc mod 8192],
    executes the fetched word, and stores the [next_pc] so computed, as it
    is, in [pc]. *)
Lemma cycle_anatomy lines n st :
  reachable lines n st ->
  exists instruction regs' mem' next_pc st',
    rd (memory st) (pc st mod MEM_SIZE) = Ok instruction
    /\ execute instruction (pc st) (registers st) (memory st)
       = Ok (regs', mem', next_pc)
    /\ cycle st = Ok st'
    /\ pc st' = next_pc
    /\ (halted st' = true <-> next_pc mod 8192 = pc st).
Proof.
  intros Hreach. pose proof (reachable_shaped _ _ _ Hreach) as Hsh.
  set (instruction := reg (memory st) (pc st mod MEM_SIZE)).
  pose (r := execute_closed instruction (pc st) (registers st) (memory st)).
  exists instruction, r.1.1, r.1.2, r.2, (cycle_closed st).
  split; [apply rd_reg, fetch_in_range, Hsh |].
  split; [rewrite (execute_closed_form _ _ _ _ Hsh); fold r;
          destruct r as [[? ?] ?]; reflexivity |].
  split; [apply cycle_closed_form, Hsh |].
  split; [reflexivity |].
  unfold cycle_closed. cbn [halted]. fold instruction. fold r.
  rewrite bool_decide_eq_true, MEM_SIZE_eq. reflexivity.
Qed.

(** ** The halt rule *)

(** C1. In every reachable state the cycle fetches the word at
    [pc mod 8192], computes [next_pc] from it and sets [halted] exactly when
    [next_pc mod 8192] equals the [pc] it started from; the loop is left
    only with [halted] set, never through the default branch; and the image
    holding the single instruction [J 0] at address 0 halts after exactly
    one cycle with PC 0. *)
Theorem halt_rule :
  (forall lines n st, reachable lines n st ->
     exists instruction regs' mem' next_pc st',
       rd (memory st) (pc st mod MEM_SIZE) = Ok instruction
       /\ execute instruction (pc st) (registers st) (memory st)
          = Ok (regs', mem', next_pc)
       /\ cycle st = Ok st'
       /\ pc st' = next_pc
       /\ (halted st' = true <-> next_pc mod 8192 = pc st))
  /\ (forall lines mem fuel,
        loads lines mem ->
        (forall e k, simulate fuel 0 (boot mem) <> Failed e k)
        /\ (forall st k, simulate fuel 0 (boot mem) = Finished st k -> halted st = true))
  /\ (forall fuel,
        exists st, e20sim (S fuel) jump_to_self = Ran (Finished st 1)
                   /\ pc st = 0 /\ halted st = true).
Proof.
  split; [| split].
  - exact cycle_anatomy.
  - intros lines mem fuel Hload. split.
    + intros e k. apply simulate_never_fails. exact (loads_shaped _ _ Hload).
    + intros st k. apply simulate_finished.
  - intros fuel.
    assert (Hload : exists mem, loads jump_to_self mem
                      /\ cycle (boot mem) = Ok (Machine mem (registers (boot mem)) 0 true))
      by (exists (<[0%nat := 0x4000]> zero_memory); split; vm_compute; reflexivity).
    destruct Hload as (mem & Hload & Hcycle).
    exists (Machine mem (registers (boot mem)) 0 true).
    unfold e20sim. unfold loads in Hload. rewrite Hload.
    rewrite (simulate_cycle fuel 0 (boot mem) _ eq_refl Hcycle).
    rewrite simulate_halted by reflexivity. auto.
Qed.

Lemma halt_rule_witness :
  reachable jump_to_self 0 (boot (<[0%nat := 0x4000]> zero_memory))
  /\ exists instruction regs' mem' next_pc st',
       let st := boot (<[0%nat := 0x4000]> zero_memory) in
       rd (memory st) (pc st mod MEM_SIZE) = Ok instruction
       /\ execute instruction (pc st) (registers st) (memory st)
          = Ok (regs', mem', next_pc)
       /\ cycle st = Ok st'
       /\ pc st' = next_pc
       /\ (halted st' = true <-> next_pc mod 8192 = pc st).
Proof.
  assert (Hreach : reachable jump_to_self 0 (boot (<[0%nat := 0x4000]> zero_memory))).
  { exists (<[0%nat := 0x4000]> zero_memory). split; [vm_compute | ]; reflexivity. }
  split; [exact Hreach | exact (proj1 halt_rule _ _ _ Hreach)].
Defined.

(** ** Register 0 *)

Ltac opcode_cases instruction H :=
  let R := fresh "R" in
  pose proof (field3_range instruction 13 ltac:(lia)) as R;
  change (13 + 2) with 15 in R;
  assert (extract_bits instruction 13 15 = 0 \/ extract_bits instruction 13 15 = 1
          \/ extract_bits instruction 13 15 = 2 \/ extract_bits instruction 13 15 = 3
          \/ extract_bits instruction 13 15 = 4 \/ extract_bits instruction 13 15 = 5
          \/ extract_bits instruction 13 15 = 6 \/ extract_bits instruction 13 15 = 7)
    as H by lia;
  clear R;
  destruct H as [H | [H | [H | [H | [H | [H | [H | H]]]]]]].

Lemma cycle_register0 st st' : cycle st = Ok st' -> registers st' !! 0%nat = Some 0.
Proof.
  unfold cycle. intros H.
  apply bind_inv in H as (instruction & _ & H).
  apply bind_inv in H as ([[regs' mem'] next_pc] & _ & H).
  apply bind_inv in H as (regs'' & Hwr & H).
  injection H as <-. apply wr_Ok in Hwr as [Hlt ->]. simpl.
  apply list_lookup_insert_eq. exact Hlt.
Qed.

Lemma execute_closed_suppressed instruction current_pc regs mem :
  regDst_field instruction = Some 0 ->
  (execute_closed instruction current_pc regs mem).1.1 = regs.
Proof.
  unfold regDst_field, execute_closed. cbv zeta. intros Hd.
  opcode_cases instruction Hop; rewrite Hop in *; cbv beta iota in Hd;
    try discriminate; injection Hd as ->; reflexivity.
Qed.

(** C2. After every number of completed cycles of every loaded image,
    register 0 holds 0: each cycle ends by storing 0 there, whatever it
    executed. A cycle whose instruction names register 0 as destination
    completes without error and leaves registers 1 to 7 as they were. *)
Theorem register0_always_zero :
  (forall lines n st, reachable lines n st -> registers st !! 0%nat = Some 0)
  /\ (forall st st', cycle st = Ok st' -> registers st' !! 0%nat = Some 0)
  /\ (forall lines n st instruction,
        reachable lines n st ->
        rd (memory st) (pc st mod MEM_SIZE) = Ok instruction ->
        regDst_field instruction = Some 0 ->
        exists st', cycle st = Ok st'
                    /\ forall i, (0 < i)%nat -> registers st' !! i = registers st !! i).
Proof.
  split; [| split].
  - intros lines n st (mem & Hload & Hafter). destruct n as [| n].
    + injection Hafter as <-. reflexivity.
    + apply after_last in Hafter as (st0 & _ & _ & Hc).
      exact (cycle_register0 _ _ Hc).
  - exact cycle_register0.
  - intros lines n st instruction Hreach Hrd Hd.
    pose proof (reachable_shaped _ _ _ Hreach) as Hsh.
    exists (cycle_closed st). split; [apply cycle_closed_form, Hsh |].
    intros i Hi. unfold cycle_closed. cbn [registers].
    rewrite (rd_reg (memory st)) in Hrd by (apply fetch_in_range, Hsh).
    injection Hrd as ->.
    rewrite (execute_closed_suppressed _ _ _ _ Hd).
    apply list_lookup_insert_ne. lia.
Qed.

Lemma register0_always_zero_witness :
  reachable add_to_zero 1 add_to_zero_before
  /\ rd (memory add_to_zero_before) (pc add_to_zero_before mod MEM_SIZE) = Ok 0x0480
  /\ regDst_field 0x0480 = Some 0
  /\ (exists st',
        cycle add_to_zero_before = Ok st'
        /\ forall i, (0 < i)%nat ->
             registers st' !! i = registers add_to_zero_before !! i)
  /\ (forall st', cycle add_to_zero_before = Ok st' -> registers st' !! 0%nat = Some 0)
  /\ reachable add_to_zero 2 add_to_zero_after
  /\ registers add_to_zero_after !! 0%nat = Some 0.
Proof.
  assert (Hbefore : reachable add_to_zero 1 add_to_zero_before).
  { exists add_to_zero_memory. split; vm_compute; reflexivity. }
  assert (Hafter : reachable add_to_zero 2 add_to_zero_after).
  { exists add_to_zero_memory. split; vm_compute; reflexivity. }
  assert (Hrd : rd (memory add_to_zero_before) (pc add_to_zero_before mod MEM_SIZE)
                = Ok 0x0480) by (vm_compute; reflexivity).
  assert (Hdst : regDst_field 0x0480 = Some 0) by reflexivity.
  destruct register0_always_zero as (Hzero & Hcommit & Hsuppressed).
  split; [exact Hbefore |]. split; [exact Hrd |]. split; [exact Hdst |].
  split; [exact (Hsuppressed _ _ _ _ Hbefore Hrd Hdst) |].
  split; [exact (Hcommit add_to_zero_before) |].
  split; [exact Hafter | exact (Hzero _ _ _ Hafter)].
Defined.

(** ** The three-register instructions *)

Lemma word_mask16 a : 0 <= a < 65536 -> Z.land a 0xFFFF = a.
Proof. intros Ha. rewrite mask16. apply Z.mod_small. exact Ha. Qed.

Lemma word_lor a b :
  0 <= a < 65536 -> 0 <= b < 65536 -> Z.land (Z.lor a b) 0xFFFF = Z.lor a b.
Proof.
  intros Ha Hb. rewrite Z.land_lor_distr_l, (word_mask16 a Ha), (word_mask16 b Hb).
  reflexivity.
Qed.

Lemma word_land a b :
  0 <= b < 65536 -> Z.land (Z.land a b) 0xFFFF = Z.land a b.
Proof. intros Hb. rewrite <- Z.land_assoc, (word_mask16 b Hb). reflexivity. Qed.

Lemma reg_Some (regs : list Z) i v : regs !! Z.to_nat i = Some v -> reg regs i = v.
Proof. intros H. unfold reg. rewrite H. reflexivity. Qed.

(** The OR of sub-code 0010 is masked to 16 bits like the sum: in the state
    [wide_operand] reaches after its LW, register 1 holds 65537, and
    [OR $2, $1, $0] writes 1, not 65537. *)
Lemma or_written_masked :
  ~ (forall lines n st instruction a b regs' mem' next_pc,
       reachable lines n st ->
       rd (memory st) (pc st mod MEM_SIZE) = Ok instruction ->
       extract_bits instruction 13 15 = 0 ->
       extract_bits instruction 0 3 = 2 ->
       extract_bits instruction 4 6 <> 0 ->
       registers st !! Z.to_nat (extract_bits instruction 10 12) = Some a ->
       registers st !! Z.to_nat (extract_bits instruction 7 9) = Some b ->
       execute instruction (pc st) (registers st) (memory st)
       = Ok (regs', mem', next_pc) ->
       regs' !! Z.to_nat (extract_bits instruction 4 6) = Some (Z.lor a b)).
Proof.
  intros H.
  assert (Hreach : reachable wide_operand 1 wide_operand_state).
  { exists (memory wide_operand_state). split; vm_compute; reflexivity. }
  specialize (H wide_operand 1%nat wide_operand_state 0x0422 65537 0
                [0; 65537; 1; 0; 0; 0; 0; 0] (memory wide_operand_state) 2 Hreach).
  assert (Habs : [0; 65537; 1; 0; 0; 0; 0; 0] !! Z.to_nat (extract_bits 0x0422 4 6)
                 = Some (Z.lor 65537 0)).
  { apply H.
    - vm_compute. reflexivity.
    - reflexivity.
    - reflexivity.
    - vm_compute. discriminate.
    - reflexivity.
    - reflexivity.
    - vm_compute. reflexivity. }
  vm_compute in Habs. discriminate.
Qed.

(** C3 (amended). An instruction of opcode 0, on registers [a] (regA, bits
    12..10) and [b] (regB, bits 9..7), with destination regDst (bits 6..4)
    and sub-code (bits 3..0): sub-codes 0 to 4 write the masked sum, the
    masked difference, the OR masked to 16 bits, the AND masked to 16 bits,
    and the unsigned comparison flag to regDst; sub-code 8 sets [next_pc]
    to [a & 0x1FFF] and writes nothing; every other sub-code writes
    nothing; nothing is written when regDst is 0; and [next_pc] is the
    following address unless the sub-code is 8. On 16-bit register values
    the masked OR and AND are the OR and the AND. *)
Theorem add_class_semantics instruction current_pc regs mem a b :
  shaped regs mem ->
  extract_bits instruction 13 15 = 0 ->
  regs !! Z.to_nat (extract_bits instruction 10 12) = Some a ->
  regs !! Z.to_nat (extract_bits instruction 7 9) = Some b ->
  exists regs' next_pc,
    execute instruction current_pc regs mem = Ok (regs', mem, next_pc)
    /\ (extract_bits instruction 4 6 = 0 -> regs' = regs)
    /\ (extract_bits instruction 4 6 <> 0 ->
        (extract_bits instruction 0 3 = 0 ->
         regs' = <[Z.to_nat (extract_bits instruction 4 6) := Z.land (a + b) 0xFFFF]> regs)
        /\ (extract_bits instruction 0 3 = 1 ->
            regs' = <[Z.to_nat (extract_bits instruction 4 6) := Z.land (a - b) 0xFFFF]> regs)
        /\ (extract_bits instruction 0 3 = 2 ->
            regs' = <[Z.to_nat (extract_bits instruction 4 6)
                      := Z.land (Z.lor a b) 0xFFFF]> regs)
        /\ (extract_bits instruction 0 3 = 3 ->
            regs' = <[Z.to_nat (extract_bits instruction 4 6)
                      := Z.land (Z.land a b) 0xFFFF]> regs)
        /\ (extract_bits instruction 0 3 = 4 ->
            regs' = <[Z.to_nat (extract_bits instruction 4 6)
                      := if a <? b then 1 else 0]> regs))
    /\ (extract_bits instruction 0 3 = 8 ->
        regs' = regs /\ next_pc = Z.land a 0x1FFF)
    /\ (extract_bits instruction 0 3 <> 8 -> next_pc = u32 (current_pc + 1))
    /\ (4 < extract_bits instruction 0 3 -> regs' = regs)
    /\ (0 <= a < 65536 -> 0 <= b < 65536 ->
        Z.land (Z.lor a b) 0xFFFF = Z.lor a b
        /\ Z.land (Z.land a b) 0xFFFF = Z.land a b).
Proof.
  intros Hsh Hop Ha Hb.
  rewrite (execute_closed_form _ _ _ _ Hsh). unfold execute_closed. cbv zeta.
  rewrite Hop, (reg_Some _ _ _ Ha), (reg_Some _ _ _ Hb).
  change (0 =? 0) with true. cbv beta iota.
  rewrite <- !mask16, <- mask13.
  set (regDst := extract_bits instruction 4 6).
  set (sub := extract_bits instruction 0 3).
  eexists _, _. split; [reflexivity |].
  split; [intros ->; reflexivity |].
  split.
  { intros Hd. apply Z.eqb_neq in Hd. rewrite Hd.
    repeat split; intros ->; reflexivity. }
  split; [intros ->; destruct (regDst =? 0); auto |].
  split; [intros H8; apply Z.eqb_neq in H8; rewrite H8; reflexivity |].
  split.
  { intros H4. rewrite !(proj2 (Z.eqb_neq sub _)) by lia.
    destruct (regDst =? 0); reflexivity. }
  intros Hwa Hwb. split; [apply word_lor | apply word_land]; assumption.
Qed.

(** [ADD $3, $1, $2] on registers holding 5 and 3. *)
Lemma add_class_semantics_witness :
  exists regs' next_pc,
    execute 0x0530 0 [0; 5; 3; 0; 0; 0; 0; 0] zero_memory
    = Ok (regs', zero_memory, next_pc)
    /\ regs' = [0; 5; 3; 8; 0; 0; 0; 0] /\ next_pc = 1.
Proof.
  destruct (add_class_semantics 0x0530 0 [0; 5; 3; 0; 0; 0; 0; 0] zero_memory 5 3)
    as (regs' & next_pc & Hex & _ & Hwrite & _ & Hnext & _).
  - split; [reflexivity | exact zero_memory_length].
  - reflexivity.
  - reflexivity.
  - reflexivity.
  - exists regs', next_pc. split; [exact Hex |]. split.
    + destruct Hwrite as [Hadd _]; [vm_compute; discriminate |].
      rewrite Hadd by reflexivity. reflexivity.
    + rewrite Hnext by (vm_compute; discriminate). reflexivity.
Defined.

(** ** Sign extension and ADDI *)

Lemma sign_extend_table : forallb sign_extend_check (seqZ 0 128) = true.
Proof. vm_compute. reflexivity. Qed.

Lemma sign_extend_checked v : 0 <= v < 128 -> sign_extend_check v = true.
Proof.
  intros Hv. pose proof sign_extend_table as H.
  rewrite forallb_forall in H. apply H. apply list_elem_of_In, elem_of_seqZ. lia.
Qed.

Lemma sign_extend_facts v :
  0 <= v < 128 ->
  (v < 64 -> Z.testbit v 6 = false /\ sign_extend v = v)
  /\ (64 <= v ->
      Z.testbit v 6 = true
      /\ sign_extend v = Z.lor v 0xFF80
      /\ sign_extend v = v + 0xFF80
      /\ sign_extend v = 65536 + (v - 128)
      /\ (forall i, 7 <= i <= 15 -> Z.testbit (sign_extend v) i = true)
      /\ (forall i, 0 <= i < 7 -> Z.testbit (sign_extend v) i = Z.testbit v i)).
Proof.
  intros Hv. pose proof (sign_extend_checked v Hv) as H. unfold sign_extend_check in H.
  destruct (v <? 64) eqn:Hlt; split; intros Hcase; try lia; split_andb.
  - split; [apply negb_true_iff; assumption | apply Z.eqb_eq; assumption].
  - repeat match goal with
           | H : (_ =? _) = true |- _ => apply Z.eqb_eq in H
           end.
    repeat split; try assumption.
    + intros i Hi.
      match goal with
      | H : forallb _ (seqZ 7 9) = true |- _ =>
          rewrite forallb_forall in H; apply H
      end.
      apply list_elem_of_In, elem_of_seqZ. lia.
    + intros i Hi. apply eqb_prop.
      match goal with
      | H : forallb _ (seqZ 0 7) = true |- _ =>
          rewrite forallb_forall in H; apply H
      end.
      apply list_elem_of_In, elem_of_seqZ. lia.
Qed.

Lemma sign_extend_range v : 0 <= v < 128 -> 0 <= sign_extend v < 65536.
Proof.
  intros Hv. destruct (sign_extend_facts v Hv) as [Hlow Hhigh].
  destruct (Z_lt_le_dec v 64) as [Hlt | Hge].
  - destruct (Hlow Hlt) as [_ ->]. lia.
  - destruct (Hhigh Hge) as (_ & _ & _ & -> & _). lia.
Qed.

(** C4. On a seven-bit value [sign_extend] returns the value itself when
    bit 6 is clear; when bit 6 is set it returns the value with bits 7 to
    15 set, bits 0 to 6 kept and nothing above bit 15, the 16-bit two's
    complement of [v - 128]. ADDI writes [(a + sign_extend imm) & 0xFFFF] to
    its destination unless that is register 0; so with regA = register 0
    (holding 0) and immediate 1000000 the destination holds 0xFFC0. *)
Theorem sign_extend_addi :
  (forall v, 0 <= v < 128 ->
     (Z.testbit v 6 = false -> sign_extend v = v)
     /\ (Z.testbit v 6 = true ->
         sign_extend v = Z.lor v 0xFF80
         /\ sign_extend v = 65536 + (v - 128)
         /\ (forall i, 7 <= i <= 15 -> Z.testbit (sign_extend v) i = true)
         /\ (forall i, 0 <= i < 7 -> Z.testbit (sign_extend v) i = Z.testbit v i)
         /\ 0 <= sign_extend v < 65536))
  /\ (forall instruction current_pc regs mem a,
        shaped regs mem ->
        extract_bits instruction 13 15 = 1 ->
        regs !! Z.to_nat (extract_bits instruction 10 12) = Some a ->
        exists regs',
          execute instruction current_pc regs mem = Ok (regs', mem, u32 (current_pc + 1))
          /\ (extract_bits instruction 7 9 = 0 -> regs' = regs)
          /\ (extract_bits instruction 7 9 <> 0 ->
              regs' = <[Z.to_nat (extract_bits instruction 7 9)
                        := Z.land (a + sign_extend (extract_bits instruction 0 6)) 0xFFFF]>
                        regs))
  /\ (forall instruction current_pc regs mem,
        shaped regs mem ->
        regs !! 0%nat = Some 0 ->
        extract_bits instruction 13 15 = 1 ->
        extract_bits instruction 10 12 = 0 ->
        extract_bits instruction 0 6 = 64 ->
        extract_bits instruction 7 9 <> 0 ->
        exists regs',
          execute instruction current_pc regs mem = Ok (regs', mem, u32 (current_pc + 1))
          /\ regs' !! Z.to_nat (extract_bits instruction 7 9) = Some 0xFFC0).
Proof.
  assert (Haddi : forall instruction current_pc regs mem a,
             shaped regs mem ->
             extract_bits instruction 13 15 = 1 ->
             regs !! Z.to_nat (extract_bits instruction 10 12) = Some a ->
             execute instruction current_pc regs mem
             = Ok (if extract_bits instruction 7 9 =? 0 then regs
                   else <[Z.to_nat (extract_bits instruction 7 9)
                          := Z.land (a + sign_extend (extract_bits instruction 0 6)) 0xFFFF]>
                          regs,
                   mem, u32 (current_pc + 1))).
  { intros instruction current_pc regs mem a Hsh Hop Ha.
    rewrite (execute_closed_form _ _ _ _ Hsh). unfold execute_closed. cbv zeta.
    rewrite Hop, (reg_Some _ _ _ Ha). change (1 =? 0) with false.
    change (1 =? 1) with true. cbv beta iota. rewrite <- mask16. reflexivity. }
  split; [| split].
  - intros v Hv. destruct (sign_extend_facts v Hv) as [Hlow Hhigh].
    pose proof (sign_extend_range v Hv) as Hrange.
    destruct (Z_lt_le_dec v 64) as [Hlt | Hge].
    + destruct (Hlow Hlt) as [Hbit Heq]. split; [auto | congruence].
    + destruct (Hhigh Hge) as (Hbit & Hor & _ & Htwo & Hup & Hkeep).
      split; [congruence | auto 10].
  - intros instruction current_pc regs mem a Hsh Hop Ha.
    eexists. split; [apply (Haddi _ _ _ _ a); assumption |].
    split; [intros ->; reflexivity |].
    intros Hd. apply Z.eqb_neq in Hd. rewrite Hd. reflexivity.
  - intros instruction current_pc regs mem Hsh H0 Hop HA Himm Hd.
    eexists. split; [apply (Haddi _ _ _ _ 0); [assumption .. | rewrite HA; exact H0] |].
    rewrite (proj2 (Z.eqb_neq _ _) Hd), Himm.
    change (Z.land (0 + sign_extend 64) 0xFFFF) with 0xFFC0.
    apply list_lookup_insert_eq.
    destruct Hsh as [Hregs _]. unfold NUM_REGS in Hregs.
    pose proof (field3_range instruction 7 ltac:(lia)) as Hr.
    change (7 + 2) with 9 in Hr. lia.
Qed.

(** [ADDI $1, $0, -64] on zeroed registers. *)
Lemma sign_extend_addi_witness :
  exists regs',
    execute 0x20C0 0 [0; 0; 0; 0; 0; 0; 0; 0] zero_memory
    = Ok (regs', zero_memory, u32 (0 + 1))
    /\ regs' !! Z.to_nat (extract_bits 0x20C0 7 9) = Some 0xFFC0.
Proof.
  apply (proj2 (proj2 sign_extend_addi) 0x20C0 0 [0; 0; 0; 0; 0; 0; 0; 0] zero_memory).
  - split; [reflexivity | exact zero_memory_length].
  - reflexivity.
  - reflexivity.
  - reflexivity.
  - reflexivity.
  - vm_compute. discriminate.
Defined.

(** ** Ranges of the stored values and of the addresses *)

(** The loader stores the value of a literal of any length, unmasked: the
    memory of a loaded image can hold a word above 65535. *)
Lemma loaded_word_above_16_bits :
  ~ (forall lines n st,
       reachable lines n st ->
       Forall (fun v => 0 <= v <= 65535) (registers st)
       /\ Forall (fun v => 0 <= v <= 65535) (memory st)).
Proof.
  intros H.
  destruct (H wide_literal 0%nat (boot (<[0%nat := 65536]> zero_memory))) as [_ Hmem].
  - exists (<[0%nat := 65536]> zero_memory). split; [vm_compute |]; reflexivity.
  - pose proof (Forall_lookup_1 _ _ 0%nat 65536 Hmem eq_refl) as Hw. simpl in Hw. lia.
Qed.

(** C5 (amended). In every state a loaded image reaches, the cycle
    completes: no fetch, load or store falls outside the 8192 words and no
    register number outside the eight registers. When the words of the
    loaded image all lie in 0..65535, so does every register and every
    memory word of every state reached; and the words of the image do lie
    there when every literal has 16 binary characters. *)
Theorem values_and_addresses_in_range lines mem n st :
  loads lines mem ->
  after n (boot mem) = Some st ->
  (exists st', cycle st = Ok st')
  /\ (forall e, cycle st <> Err e)
  /\ (Forall (below 65536) mem ->
      Forall (below 65536) (registers st) /\ Forall (below 65536) (memory st))
  /\ (spec_image_ok 0 lines = true -> Forall (below 65536) mem).
Proof.
  intros Hload Hafter.
  pose proof (after_shaped n _ _ (loads_shaped _ _ Hload) Hafter) as Hsh.
  pose proof (cycle_closed_form st Hsh) as Hc.
  split; [eauto |]. split; [intros e He; congruence |].
  split; [| intros Hok;
            destruct (spec_image_loads lines 0 zero_memory Hok) as (mem' & Hl & Hb);
            unfold loads in Hload; rewrite Hload in Hl; injection Hl as <-;
            apply Hb, zero_memory_below; lia ].
  intros Hmem.
  apply (after_invariant
           (fun s => shaped_state s /\ values_below 65536 s)) with (n := n) (st := boot mem);
    [| split; [exact (loads_shaped _ _ Hload) | apply boot_below; [lia | exact Hmem]]
     | exact Hafter].
  intros s s' [Hs Hb] _ Hcs. rewrite (cycle_closed_form s Hs) in Hcs.
  injection Hcs as <-.
  split; [apply cycle_closed_shaped, Hs | apply cycle_closed_below; [lia | exact Hb]].
Qed.

Lemma values_and_addresses_in_range_witness :
  loads jump_to_self (<[0%nat := 0x4000]> zero_memory)
  /\ after 0 (boot (<[0%nat := 0x4000]> zero_memory))
     = Some (boot (<[0%nat := 0x4000]> zero_memory))
  /\ (exists st', cycle (boot (<[0%nat := 0x4000]> zero_memory)) = Ok st')
  /\ Forall (below 65536) (registers (boot (<[0%nat := 0x4000]> zero_memory)))
  /\ Forall (below 65536) (memory (boot (<[0%nat := 0x4000]> zero_memory))).
Proof.
  assert (Hload : loads jump_to_self (<[0%nat := 0x4000]> zero_memory))
    by (vm_compute; reflexivity).
  destruct (values_and_addresses_in_range jump_to_self _ 0
              (boot (<[0%nat := 0x4000]> zero_memory)) Hload eq_refl)
    as (Hcycle & _ & Hvalues & Himage).
  split; [exact Hload |]. split; [reflexivity |]. split; [exact Hcycle |].
  apply Hvalues, Himage. vm_compute. reflexivity.
Defined.

(** ** The program counter *)

(** The taken branch adds the sign-extended immediate 0xFFFF to
    [current_pc + 1]: the machine halts after one cycle with PC 65536. *)
Lemma pc_above_16_bits :
  ~ (forall lines n st, reachable lines n st -> 0 <= pc st <= 65535).
Proof.
  intros H.
  pose (mem := <[0%nat := 0xC07F]> zero_memory).
  assert (Hreach : reachable branch_to_self 1
                     (Machine mem (registers (boot mem)) 65536 true)).
  { exists mem. split; vm_compute; reflexivity. }
  apply H in Hreach. simpl in Hreach. lia.
Qed.

Lemma execute_closed_pc_cycle st : 0 <= pc (cycle_closed st) < 2 ^ 32.
Proof. unfold cycle_closed. cbn [pc]. apply execute_closed_pc. Qed.

Lemma reachable_pc lines n st :
  reachable lines n st -> 0 <= pc st < 2 ^ 32.
Proof.
  intros (mem & Hload & Hafter).
  apply (after_invariant
           (fun s => shaped_state s /\ 0 <= pc s < 2 ^ 32)) with (n := n) (st := boot mem);
    [| split; [exact (loads_shaped _ _ Hload) | simpl; lia] | exact Hafter].
  intros s s' [Hs _] _ Hcs. rewrite (cycle_closed_form s Hs) in Hcs.
  injection Hcs as <-.
  split; [apply cycle_closed_shaped, Hs | apply execute_closed_pc_cycle].
Qed.

(** C7 (amended). The program counter is an unsigned 32-bit value: in
    every state a loaded image reaches, including the one the run ends in,
    it lies in 0 .. 2^32 - 1. The cycle fetches at [pc mod 8192], stores
    the [next_pc] it computed unreduced, and reduces it modulo 8192 in the
    halt comparison. *)
Theorem pc_range lines n st :
  reachable lines n st ->
  0 <= pc st < 2 ^ 32
  /\ exists instruction regs' mem' next_pc st',
       rd (memory st) (pc st mod MEM_SIZE) = Ok instruction
       /\ execute instruction (pc st) (registers st) (memory st)
          = Ok (regs', mem', next_pc)
       /\ cycle st = Ok st'
       /\ pc st' = next_pc
       /\ (halted st' = true <-> next_pc mod 8192 = pc st).
Proof.
  intros Hreach. split; [exact (reachable_pc lines n st Hreach) |].
  exact (cycle_anatomy lines n st Hreach).
Qed.

Lemma pc_range_witness :
  reachable branch_to_self 1
    (Machine (<[0%nat := 0xC07F]> zero_memory) [0; 0; 0; 0; 0; 0; 0; 0] 65536 true)
  /\ 0 <= 65536 < 2 ^ 32.
Proof.
  assert (Hreach : reachable branch_to_self 1
            (Machine (<[0%nat := 0xC07F]> zero_memory) [0; 0; 0; 0; 0; 0; 0; 0] 65536 true)).
  { exists (<[0%nat := 0xC07F]> zero_memory). split; vm_compute; reflexivity. }
  split; [exact Hreach | exact (proj1 (pc_range _ _ _ Hreach))].
Defined.

(** ** The default branch *)

Lemma bind_not_unknown {A B} (m : result A) (f : A -> result B) opcode current_pc :
  m <> Err (UnknownOpcode opcode current_pc) ->
  (forall a, f a <> Err (UnknownOpcode opcode current_pc)) ->
  (m ≫= f) <> Err (UnknownOpcode opcode current_pc).
Proof.
  intros Hm Hf. destruct m as [a | e]; [apply Hf |].
  intros H. apply Hm. injection H as ->. reflexivity.
Qed.

Lemma rd_not_unknown a i opcode current_pc :
  rd a i <> Err (UnknownOpcode opcode current_pc).
Proof. unfold rd. destruct (a !! Z.to_nat i); discriminate. Qed.

Lemma wr_not_unknown a i v opcode current_pc :
  wr a i v <> Err (UnknownOpcode opcode current_pc).
Proof. unfold wr. destruct (decide _); discriminate. Qed.

Ltac not_unknown :=
  repeat first
    [ apply rd_not_unknown
    | apply wr_not_unknown
    | discriminate
    | apply bind_not_unknown; [| intros ?]
    | match goal with
      | |- (let '(_, _) := ?p in _) <> _ => destruct p
      | |- (if ?c then _ else _) <> _ => destruct c
      | |- (match ?z with 0 => _ | Z.pos _ => _ | Z.neg _ => _ end) <> _ => destruct z
      | |- (match ?p with xH => _ | xO _ => _ | xI _ => _ end) <> _ => destruct p
      end ].

(** Whatever the word, registers and memory, [execute] does not take the
    default branch. *)
Lemma execute_not_unknown instruction current_pc regs mem opcode pc0 :
  execute instruction current_pc regs mem <> Err (UnknownOpcode opcode pc0).
Proof.
  unfold execute. cbv zeta.
  opcode_cases instruction Hop; rewrite Hop; cbv beta iota;
    unfold exec_add; cbv zeta; not_unknown.
Qed.

Lemma cycle_not_unknown st opcode pc0 : cycle st <> Err (UnknownOpcode opcode pc0).
Proof.
  unfold cycle. cbv zeta.
  apply bind_not_unknown; [apply rd_not_unknown | intros instruction].
  apply bind_not_unknown; [apply execute_not_unknown | intros [[regs' mem'] next_pc]].
  apply bind_not_unknown; [apply wr_not_unknown | intros regs'']. discriminate.
Qed.

(** C8. The opcode read from bits 15..13 of any word is one of 0 to 7;
    neither [execute] nor a whole cycle ever ends in the default branch,
    whatever the state; and no run of a loaded image fails. *)
Theorem default_branch_unreachable :
  (forall instruction, 0 <= extract_bits instruction 13 15 <= 7)
  /\ (forall instruction current_pc regs mem opcode pc0,
        execute instruction current_pc regs mem <> Err (UnknownOpcode opcode pc0))
  /\ (forall st opcode pc0, cycle st <> Err (UnknownOpcode opcode pc0))
  /\ (forall lines mem fuel e k,
        loads lines mem -> simulate fuel 0 (boot mem) <> Failed e k).
Proof.
  split; [| split; [| split]].
  - intros instruction. pose proof (field3_range instruction 13 ltac:(lia)) as H.
    change (13 + 2) with 15 in H. lia.
  - intros. apply execute_not_unknown.
  - intros. apply cycle_not_unknown.
  - intros lines mem fuel e k Hload. apply simulate_never_fails.
    exact (loads_shaped _ _ Hload).
Qed.

Lemma default_branch_unreachable_witness :
  loads jump_to_self (<[0%nat := 0x4000]> zero_memory)
  /\ simulate 2 0 (boot (<[0%nat := 0x4000]> zero_memory)) <> Failed (UnknownOpcode 8 0) 0.
Proof.
  assert (Hload : loads jump_to_self (<[0%nat := 0x4000]> zero_memory))
    by (vm_compute; reflexivity).
  split; [exact Hload |].
  exact (proj2 (proj2 (proj2 default_branch_unreachable)) _ _ 2%nat
           (UnknownOpcode 8 0) 0%nat Hload).
Defined.

(** ** Memory is written by SW only *)

Lemma execute_closed_memory instruction current_pc regs mem :
  (extract_bits instruction 13 15 <> 5 ->
   (execute_closed instruction current_pc regs mem).1.2 = mem)
  /\ (extract_bits instruction 13 15 = 5 ->
      execute_closed instruction current_pc regs mem
      = (regs,
         <[Z.to_nat ((reg regs (extract_bits instruction 10 12)
                      + sign_extend (extract_bits instruction 0 6)) mod 8192)
           := reg regs (extract_bits instruction 7 9)]> mem,
         u32 (current_pc + 1))).
Proof.
  unfold execute_closed. cbv zeta.
  opcode_cases instruction Hop; rewrite Hop; cbv beta iota;
    (split; [intros Hne | intros He]); try discriminate; try reflexivity;
    try contradiction.
Qed.

Lemma effective_address_range a imm : 0 <= Z.land (a + imm) 0x1FFF < 8192.
Proof. apply mask13_range. Qed.

(** C9. In a reachable state, a cycle whose opcode is not 5 leaves the
    memory as it was. A cycle of opcode 5 (SW) stores the value of regB at
    the address [(a + sign_extend imm) & 0x1FFF], which lies in 0..8191,
    whatever that address holds, and changes no other word. *)
Theorem memory_written_by_sw_only lines n st instruction st' :
  reachable lines n st ->
  rd (memory st) (pc st mod MEM_SIZE) = Ok instruction ->
  cycle st = Ok st' ->
  (extract_bits instruction 13 15 <> 5 -> memory st' = memory st)
  /\ (extract_bits instruction 13 15 = 5 ->
      exists a b,
        registers st !! Z.to_nat (extract_bits instruction 10 12) = Some a
        /\ registers st !! Z.to_nat (extract_bits instruction 7 9) = Some b
        /\ 0 <= Z.land (a + sign_extend (extract_bits instruction 0 6)) 0x1FFF < 8192
        /\ memory st'
           = <[Z.to_nat (Z.land (a + sign_extend (extract_bits instruction 0 6)) 0x1FFF)
               := b]> (memory st)
        /\ memory st'
             !! Z.to_nat (Z.land (a + sign_extend (extract_bits instruction 0 6)) 0x1FFF)
           = Some b
        /\ forall j,
             j <> Z.to_nat (Z.land (a + sign_extend (extract_bits instruction 0 6)) 0x1FFF) ->
             memory st' !! j = memory st !! j).
Proof.
  intros Hreach Hrd Hc. pose proof (reachable_shaped _ _ _ Hreach) as Hsh.
  rewrite (cycle_closed_form st Hsh) in Hc. injection Hc as <-.
  rewrite (rd_reg (memory st)) in Hrd by (apply fetch_in_range, Hsh).
  injection Hrd as Hi. unfold cycle_closed. cbn [memory]. rewrite Hi.
  destruct (execute_closed_memory instruction (pc st) (registers st) (memory st))
    as [Hother Hsw].
  split; [exact Hother |].
  intros Hop. rewrite (Hsw Hop). cbn [fst snd].
  destruct Hsh as [Hregs Hmem]. unfold NUM_REGS in Hregs. rewrite MEM_SIZE_eq in Hmem.
  field_ranges instruction.
  exists (reg (registers st) (extract_bits instruction 10 12)),
         (reg (registers st) (extract_bits instruction 7 9)).
  rewrite mask13.
  pose proof (Z.mod_pos_bound (reg (registers st) (extract_bits instruction 10 12)
                               + sign_extend (extract_bits instruction 0 6)) 8192
                ltac:(lia)) as Haddr.
  split; [apply reg_lookup; lia |]. split; [apply reg_lookup; lia |].
  split; [exact Haddr |]. split; [reflexivity |].
  split; [apply list_lookup_insert_eq; lia |].
  intros j Hj. apply list_lookup_insert_ne. congruence.
Qed.

Lemma memory_written_by_sw_only_witness :
  reachable jump_to_self 0 (boot (<[0%nat := 0x4000]> zero_memory))
  /\ (extract_bits 0x4000 13 15 <> 5 ->
      memory (Machine (<[0%nat := 0x4000]> zero_memory) [0; 0; 0; 0; 0; 0; 0; 0] 0 true)
      = memory (boot (<[0%nat := 0x4000]> zero_memory))).
Proof.
  assert (Hreach : reachable jump_to_self 0 (boot (<[0%nat := 0x4000]> zero_memory))).
  { exists (<[0%nat := 0x4000]> zero_memory). split; [vm_compute |]; reflexivity. }
  split; [exact Hreach |].
  apply (memory_written_by_sw_only jump_to_self 0
           (boot (<[0%nat := 0x4000]> zero_memory)) 0x4000
           (Machine (<[0%nat := 0x4000]> zero_memory) [0; 0; 0; 0; 0; 0; 0; 0] 0 true)
           Hreach).
  - vm_compute. reflexivity.
  - vm_compute. reflexivity.
Defined.

(** ** A store over the executing instruction *)

Lemma next_address_differs current_pc : u32 (current_pc + 1) mod 8192 <> current_pc.
Proof.
  pose proof (Z.mod_pos_bound (u32 (current_pc + 1)) 8192 ltac:(lia)) as Hm.
  destruct (Z_lt_le_dec current_pc 0) as [Hneg | Hpos]; [lia |].
  destruct (Z_lt_le_dec current_pc 8192) as [Hin | Hout]; [| lia].
  rewrite u32_small by lia.
  destruct (Z.eq_dec (current_pc + 1) 8192) as [He | Hne].
  - rewrite He, Z.mod_same by lia. lia.
  - rewrite Z.mod_small by lia. lia.
Qed.

(** C10. In a reachable state whose fetched word is an SW with effective
    address [pc mod 8192], the cycle executes the word it fetched: the
    registers are not written, the memory receives the value of regB at
    that address, [next_pc] is [current_pc + 1] (in unsigned arithmetic),
    the machine does not halt, and a later fetch of the address reads the
    stored value. *)
Theorem store_over_own_address lines n st instruction a b :
  reachable lines n st ->
  rd (memory st) (pc st mod MEM_SIZE) = Ok instruction ->
  extract_bits instruction 13 15 = 5 ->
  registers st !! Z.to_nat (extract_bits instruction 10 12) = Some a ->
  registers st !! Z.to_nat (extract_bits instruction 7 9) = Some b ->
  Z.land (a + sign_extend (extract_bits instruction 0 6)) 0x1FFF = pc st mod 8192 ->
  exists st',
    cycle st = Ok st'
    /\ execute instruction (pc st) (registers st) (memory st)
       = Ok (registers st, memory st', pc st')
    /\ memory st' = <[Z.to_nat (pc st mod 8192) := b]> (memory st)
    /\ pc st' = u32 (pc st + 1)
    /\ (pc st < 2 ^ 32 - 1 -> pc st' = pc st + 1)
    /\ halted st' = false
    /\ rd (memory st') (pc st mod MEM_SIZE) = Ok b.
Proof.
  intros Hreach Hrd Hop Ha Hb Haddr.
  pose proof (reachable_shaped _ _ _ Hreach) as Hsh.
  pose proof (reachable_pc _ _ _ Hreach) as Hpc.
  exists (cycle_closed st). split; [apply cycle_closed_form, Hsh |].
  rewrite (rd_reg (memory st)) in Hrd by (apply fetch_in_range, Hsh).
  injection Hrd as Hi.
  rewrite (execute_closed_form _ _ _ _ Hsh).
  unfold cycle_closed. cbn [memory pc halted]. rewrite Hi.
  rewrite (proj2 (execute_closed_memory instruction (pc st) (registers st) (memory st)) Hop).
  cbn [fst snd]. rewrite (reg_Some _ _ _ Ha), (reg_Some _ _ _ Hb).
  rewrite mask13 in Haddr. rewrite Haddr.
  split; [reflexivity |]. split; [reflexivity |]. split; [reflexivity |].
  split; [intros Hlt; apply u32_small; lia |].
  split.
  - apply bool_decide_eq_false. rewrite MEM_SIZE_eq. apply next_address_differs.
  - apply rd_Ok. rewrite MEM_SIZE_eq. apply list_lookup_insert_eq.
    destruct Hsh as [_ Hmem]. rewrite MEM_SIZE_eq in Hmem.
    pose proof (Z.mod_pos_bound (pc st) 8192 ltac:(lia)). lia.
Qed.

Lemma store_over_own_address_witness :
  reachable store_to_self 1 store_to_self_state
  /\ exists st',
       cycle store_to_self_state = Ok st'
       /\ execute 0xA081 (pc store_to_self_state) (registers store_to_self_state)
            (memory store_to_self_state)
          = Ok (registers store_to_self_state, memory st', pc st')
       /\ memory st'
          = <[Z.to_nat (pc store_to_self_state mod 8192) := 5]> (memory store_to_self_state)
       /\ pc st' = u32 (pc store_to_self_state + 1)
       /\ (pc store_to_self_state < 2 ^ 32 - 1 -> pc st' = pc store_to_self_state + 1)
       /\ halted st' = false
       /\ rd (memory st') (pc store_to_self_state mod MEM_SIZE) = Ok 5.
Proof.
  assert (Hreach : reachable store_to_self 1 store_to_self_state).
  { exists (<[0%nat := 0x2085]> (<[1%nat := 0xA081]> zero_memory)).
    split; vm_compute; reflexivity. }
  split; [exact Hreach |].
  apply (store_over_own_address store_to_self 1 store_to_self_state 0xA081 0 5 Hreach).
  - vm_compute. reflexivity.
  - reflexivity.
  - reflexivity.
  - reflexivity.
  - reflexivity.
Defined.

(** ** What the loader accepts *)

(** The loader takes a literal of any length: it accepts images outside
    the set of those with 16-character binary literals. *)
Lemma loader_accepts_other_literals :
  ~ (forall lines,
       (exists mem, loads lines mem) <-> spec_image_ok 0 lines = true).
Proof.
  intros H.
  assert (Hload : exists mem, loads short_literal mem).
  { exists (<[0%nat := 5]> zero_memory). vm_compute. reflexivity. }
  apply H in Hload. vm_compute in Hload. discriminate.
Qed.

(** C6 (amended). The loader accepts exactly the images each of whose
    lines, at its index [i], matches [ram[<digits>] = 16'b<digits>;<rest>]
    (digit runs of any non-zero length, no line terminator in the rest),
    has both numerals converted by [stoi], carries the address [i], and has
    [i] below 8192. On the first line that does not match the pattern, or
    that matches and converts but carries another address or an address
    from 8192 on, the process reports the error and exits with code 1
    without running a cycle; so it does on the image with addresses
    0, 1, 3. The images with 16-character binary literals, addresses in
    sequence from 0 and at most 8192 lines are among those accepted. *)
Theorem loader_acceptance :
  (forall lines,
     (exists mem, loads lines mem) <->
     (forall i line, lines !! i = Some line ->
        exists instr, line_accepted (Z.of_nat i) line instr))
  /\ (forall line sm1 sm2,
        regex_match line = Some (sm1, sm2) <->
        exists rest,
          line = "ram[" +:+ sm1 +:+ "] = 16'b" +:+ sm2 +:+ ";" +:+ rest
          /\ sm1 <> EmptyString /\ all_chars is_digit sm1 = true
          /\ sm2 <> EmptyString /\ all_chars is_digit sm2 = true
          /\ all_chars is_any rest = true)
  /\ (forall good bad rest e fuel,
        (exists mem, loads good mem) ->
        violation (Z.of_nat (length good)) bad e ->
        e20sim fuel (good ++ bad :: rest) = LoadFailed e
        /\ exit_code (e20sim fuel (good ++ bad :: rest)) = Some 1
        /\ cycles_run (e20sim fuel (good ++ bad :: rest)) = 0%nat)
  /\ (forall fuel, e20sim fuel gap_image = LoadFailed (OutOfSequence 3))
  /\ (forall lines, spec_image_ok 0 lines = true -> exists mem, loads lines mem).
Proof.
  split; [| split; [| split; [| split]]].
  - intros lines. unfold loads.
    rewrite (load_Loaded_iff lines 0 zero_memory). reflexivity.
  - exact regex_match_spec.
  - intros good bad rest e fuel [mem Hgood] Hv.
    assert (He : e20sim fuel (good ++ bad :: rest) = LoadFailed e).
    { unfold e20sim. unfold loads in Hgood.
      rewrite (load_app good (bad :: rest) 0 zero_memory mem Hgood), Z.add_0_l.
      rewrite (load_violation bad rest _ mem e Hv). reflexivity. }
    rewrite He. auto.
  - intros fuel. vm_compute. reflexivity.
  - intros lines Hok.
    destruct (spec_image_loads lines 0 zero_memory Hok) as (mem & Hload & _).
    exists mem. exact Hload.
Qed.

Lemma loader_acceptance_witness :
  (exists mem, loads (take 2 gap_image) mem)
  /\ violation 2 "ram[3] = 16'b0100000000000011;" (OutOfSequence 3)
  /\ e20sim 10 gap_image = LoadFailed (OutOfSequence 3)
  /\ exit_code (e20sim 10 gap_image) = Some 1
  /\ cycles_run (e20sim 10 gap_image) = 0%nat.
Proof.
  assert (Hgood : exists mem, loads (take 2 gap_image) mem).
  { exists (<[0%nat := 0x2085]> (<[1%nat := 0x2103]> zero_memory)).
    vm_compute. reflexivity. }
  assert (Hv : violation 2 "ram[3] = 16'b0100000000000011;" (OutOfSequence 3)).
  { apply (bad_sequence 2 _ "3" "0100000000000011" 3 0x4003);
      [reflexivity | reflexivity | reflexivity | lia]. }
  split; [exact Hgood |]. split; [exact Hv |].
  exact (proj1 (proj2 (proj2 loader_acceptance))
           (take 2 gap_image) "ram[3] = 16'b0100000000000011;" [] (OutOfSequence 3)
           10%nat Hgood Hv).
Defined.

(** ** The test programs of the specification *)

(** [ADDI $1,$0,5; ADDI $2,$0,3; ADD $3,$1,$2; J 3]: the run ends after
    four cycles with PC 3 and registers 5, 3, 8. *)
Example end_to_end_scenario :
  exists st,
    e20sim 10 ["ram[0] = 16'b0010000010000101;";
               "ram[1] = 16'b0010000100000011;";
               "ram[2] = 16'b0000010100110000;";
               "ram[3] = 16'b0100000000000011;"]
    = Ran (Finished st 4)
    /\ pc st = 3
    /\ registers st = [0; 5; 3; 8; 0; 0; 0; 0].
Proof. eexists. split; [vm_compute; reflexivity | split; reflexivity]. Qed.

(** [ADDI $1, $1, 1] on a register holding 65535 wraps to 0. *)
Example addi_wraps_around :
  execute 0x2481 0 [0; 65535; 0; 0; 0; 0; 0; 0] zero_memory
  = Ok ([0; 0; 0; 0; 0; 0; 0; 0], zero_memory, 1).
Proof. vm_compute. reflexivity. Qed.

(** The run of [JEQ $0, $0, -1] at address 0 reports PC 65536. *)
Example branch_to_self_final_pc :
  exists st, e20sim 10 branch_to_self = Ran (Finished st 1) /\ pc st = 65536.
Proof. eexists. split; [vm_compute; reflexivity | reflexivity]. Qed.

(** A literal that does not start with a binary digit, and an address
    beyond [INT_MAX], end the process by the exception of [stoi]. *)
Example literal_not_binary :
  e20sim 10 ["ram[0] = 16'b2;"] = Terminated invalid_argument.
Proof. vm_compute. reflexivity. Qed.

Example address_beyond_int :
  e20sim 10 ["ram[99999999999] = 16'b0;"] = Terminated out_of_range.
Proof. vm_compute. reflexivity. Qed.

(** * Further properties of the execution engine *)

Lemma reachable_register0 lines n st :
  reachable lines n st -> registers st !! 0%nat = Some 0.
Proof.
  intros (mem & Hload & Hafter). destruct n as [| n].
  - injection Hafter as <-. reflexivity.
  - apply after_last in Hafter as (st0 & _ & _ & Hc). exact (cycle_register0 _ _ Hc).
Qed.

(** The cycle of a reachable state, from the word it fetches. *)
Lemma cycle_fetched lines n st instruction :
  reachable lines n st ->
  rd (memory st) (pc st mod MEM_SIZE) = Ok instruction ->
  cycle st
  = Ok {| memory := (execute_closed instruction (pc st) (registers st) (memory st)).1.2;
          registers :=
            <[0%nat := 0]>
              (execute_closed instruction (pc st) (registers st) (memory st)).1.1;
          pc := (execute_closed instruction (pc st) (registers st) (memory st)).2;
          halted :=
            bool_decide
              ((execute_closed instruction (pc st) (registers st) (memory st)).2
                 mod MEM_SIZE = pc st) |}.
Proof.
  intros Hreach Hrd. pose proof (reachable_shaped _ _ _ Hreach) as Hsh.
  rewrite (rd_reg (memory st)) in Hrd by (apply fetch_in_range, Hsh).
  injection Hrd as <-. exact (cycle_closed_form st Hsh).
Qed.

Lemma reachable_insert0 lines n st :
  reachable lines n st -> <[0%nat := 0]> (registers st) = registers st.
Proof. intros Hreach. apply list_insert_id. exact (reachable_register0 _ _ _ Hreach). Qed.

Lemma execute_closed_J instruction current_pc regs mem :
  extract_bits instruction 13 15 = 2 ->
  execute_closed instruction current_pc regs mem
  = (regs, mem, extract_bits instruction 0 12).
Proof. intros Hop. unfold execute_closed. rewrite Hop. reflexivity. Qed.

Lemma execute_closed_JAL instruction current_pc regs mem :
  extract_bits instruction 13 15 = 3 ->
  execute_closed instruction current_pc regs mem
  = (<[7%nat := (current_pc + 1) mod 65536]> regs, mem, extract_bits instruction 0 12).
Proof. intros Hop. unfold execute_closed. rewrite Hop. reflexivity. Qed.

Lemma imm13_range instruction : 0 <= extract_bits instruction 0 12 < 8192.
Proof. exact (extract_bits_range instruction 0 12 ltac:(lia) ltac:(lia)). Qed.

Lemma imm13_halts instruction current_pc :
  bool_decide (extract_bits instruction 0 12 mod MEM_SIZE = current_pc) = true
  <-> extract_bits instruction 0 12 = current_pc.
Proof.
  rewrite bool_decide_eq_true, MEM_SIZE_eq.
  rewrite (Z.mod_small _ 8192) by apply imm13_range. reflexivity.
Qed.

(** X1. J in a reachable state: registers and memory are left as they
    were, the PC becomes the 13-bit immediate (below 8192), and the machine
    halts exactly when the immediate equals the PC the instruction was
    fetched for; with that PC from 8192 on it cannot halt. *)
Theorem jump_cycle lines n st instruction :
  reachable lines n st ->
  rd (memory st) (pc st mod MEM_SIZE) = Ok instruction ->
  extract_bits instruction 13 15 = 2 ->
  exists st',
    cycle st = Ok st'
    /\ registers st' = registers st
    /\ memory st' = memory st
    /\ pc st' = extract_bits instruction 0 12
    /\ 0 <= pc st' < 8192
    /\ (halted st' = true <-> extract_bits instruction 0 12 = pc st)
    /\ (8192 <= pc st -> halted st' = false).
Proof.
  intros Hreach Hrd Hop. eexists. split; [exact (cycle_fetched _ _ _ _ Hreach Hrd) |].
  rewrite (execute_closed_J _ _ _ _ Hop). cbn [fst snd registers memory pc halted].
  pose proof (imm13_range instruction) as Hr.
  split; [exact (reachable_insert0 _ _ _ Hreach) |].
  split; [reflexivity |]. split; [reflexivity |]. split; [exact Hr |].
  split; [apply imm13_halts |].
  intros Hge. apply not_true_is_false. rewrite imm13_halts. lia.
Qed.

Lemma jump_cycle_witness :
  reachable late_halt 2 late_halt_state
  /\ exists st',
       cycle late_halt_state = Ok st'
       /\ registers st' = registers late_halt_state
       /\ memory st' = memory late_halt_state
       /\ pc st' = extract_bits 0x4001 0 12
       /\ 0 <= pc st' < 8192
       /\ (halted st' = true <-> extract_bits 0x4001 0 12 = pc late_halt_state)
       /\ (8192 <= pc late_halt_state -> halted st' = false).
Proof.
  assert (Hreach : reachable late_halt 2 late_halt_state).
  { exists (memory late_halt_state). split; vm_compute; reflexivity. }
  split; [exact Hreach |].
  apply (jump_cycle late_halt 2 late_halt_state 0x4001 Hreach).
  - vm_compute. reflexivity.
  - reflexivity.
Defined.

Lemma bool_decide_eqb (x y : Z) : bool_decide (x = y) = (x =? y).
Proof.
  destruct (Z.eqb_spec x y);
    [apply bool_decide_eq_true_2 | apply bool_decide_eq_false_2]; assumption.
Qed.

Lemma next_address_never_halts current_pc :
  bool_decide (u32 (current_pc + 1) mod MEM_SIZE = current_pc) = false.
Proof. apply bool_decide_eq_false_2. rewrite MEM_SIZE_eq. apply next_address_differs. Qed.

Lemma imm7_range instruction : 0 <= extract_bits instruction 0 6 < 128.
Proof. exact (extract_bits_range instruction 0 6 ltac:(lia) ltac:(lia)). Qed.

(** [sign_extend] is the 16-bit two's complement of the signed reading. *)
Lemma sign_extend_signed7 v :
  0 <= v < 128 -> sign_extend v = signed7 v mod 65536.
Proof.
  intros Hv. destruct (sign_extend_facts v Hv) as [Hlow Hhigh]. unfold signed7.
  destruct (v <? 64) eqn:Hlt.
  - destruct (Hlow ltac:(lia)) as [_ ->]. symmetry. apply Z.mod_small. lia.
  - destruct (Hhigh ltac:(lia)) as (_ & _ & _ & -> & _).
    replace (65536 + (v - 128)) with (v - 128 + 1 * 65536) by lia.
    symmetry. rewrite <- (Z.mod_add (v - 128) 1 65536) by lia. apply Z.mod_small. lia.
Qed.

(** The address a taken branch continues at. *)
Lemma branch_target_address current_pc v :
  0 <= v < 128 ->
  u32 (current_pc + 1 + sign_extend v) mod 8192 = (current_pc + 1 + signed7 v) mod 8192.
Proof.
  intros Hv. rewrite u32_mod_divide by (exists 524288; reflexivity).
  rewrite (sign_extend_signed7 v Hv).
  generalize (signed7 v). intros s. Z.div_mod_to_equations. lia.
Qed.

Lemma branch_halts current_pc v :
  0 <= current_pc -> 0 <= v < 128 ->
  bool_decide (u32 (current_pc + 1 + sign_extend v) mod MEM_SIZE = current_pc)
  = (v =? 127) && (current_pc <? 8192).
Proof.
  intros Hpc Hv. rewrite MEM_SIZE_eq, (branch_target_address current_pc v Hv).
  rewrite bool_decide_eqb. unfold signed7.
  destruct (v <? 64) eqn:Hlt; destruct (v =? 127) eqn:H127;
    destruct (current_pc <? 8192) eqn:Hin; simpl;
    try (apply Z.eqb_eq); try (apply Z.eqb_neq);
    Z.div_mod_to_equations; lia.
Qed.

(** X2. The cycle of a reachable state raises [halted] exactly when the
    fetched instruction is a J or JAL whose immediate equals the current
    PC, a JR whose register value masked to 13 bits equals it, or a JEQ on
    equal registers with offset -1 at a PC below 8192; every other cycle
    leaves the machine running. *)
Theorem halting_cycles lines n st instruction st' :
  reachable lines n st ->
  rd (memory st) (pc st mod MEM_SIZE) = Ok instruction ->
  cycle st = Ok st' ->
  halted st' = halts_here instruction (pc st) (registers st).
Proof.
  intros Hreach Hrd Hc. rewrite (cycle_fetched _ _ _ _ Hreach Hrd) in Hc.
  injection Hc as <-. cbn [halted].
  pose proof (reachable_pc _ _ _ Hreach) as Hpc.
  pose proof (imm7_range instruction) as H7.
  unfold halts_here, execute_closed. cbv zeta.
  opcode_cases instruction Hop; rewrite Hop; cbv beta iota; cbn [fst snd];
    try apply next_address_never_halts.
  - destruct (extract_bits instruction 0 3 =? 8); simpl.
    + rewrite MEM_SIZE_eq, Z.mod_mod by lia. apply bool_decide_eqb.
    + apply next_address_never_halts.
  - rewrite MEM_SIZE_eq, (Z.mod_small _ 8192) by apply imm13_range. apply bool_decide_eqb.
  - rewrite MEM_SIZE_eq, (Z.mod_small _ 8192) by apply imm13_range. apply bool_decide_eqb.
  - destruct (reg (registers st) (extract_bits instruction 10 12)
              =? reg (registers st) (extract_bits instruction 7 9)); simpl.
    + apply branch_halts; lia.
    + apply next_address_never_halts.
Qed.

Lemma halting_cycles_witness :
  reachable late_halt 2 late_halt_state
  /\ halted (Machine (memory late_halt_state) (registers late_halt_state) 1 false)
     = halts_here 0x4001 (pc late_halt_state) (registers late_halt_state).
Proof.
  assert (Hreach : reachable late_halt 2 late_halt_state).
  { exists (memory late_halt_state). split; vm_compute; reflexivity. }
  split; [exact Hreach |].
  apply (halting_cycles late_halt 2 late_halt_state 0x4001 _ Hreach).
  - vm_compute. reflexivity.
  - vm_compute. reflexivity.
Defined.

Lemma cycle_fetched_shaped st instruction :
  shaped_state st ->
  rd (memory st) (pc st mod MEM_SIZE) = Ok instruction ->
  cycle st
  = Ok {| memory := (execute_closed instruction (pc st) (registers st) (memory st)).1.2;
          registers :=
            <[0%nat := 0]>
              (execute_closed instruction (pc st) (registers st) (memory st)).1.1;
          pc := (execute_closed instruction (pc st) (registers st) (memory st)).2;
          halted :=
            bool_decide
              ((execute_closed instruction (pc st) (registers st) (memory st)).2
                 mod MEM_SIZE = pc st) |}.
Proof.
  intros Hsh Hrd.
  rewrite (rd_reg (memory st)) in Hrd by (apply fetch_in_range, Hsh).
  injection Hrd as <-. exact (cycle_closed_form st Hsh).
Qed.

(** X3. JAL in a reachable state: register 7 receives the address after
    the instruction, masked to 16 bits (the PC itself may be larger), no
    other register and no memory word changes, the PC becomes the 13-bit
    immediate, and the machine halts exactly when that equals the PC the
    instruction was fetched for. *)
Theorem jump_and_link_cycle lines n st instruction :
  reachable lines n st ->
  rd (memory st) (pc st mod MEM_SIZE) = Ok instruction ->
  extract_bits instruction 13 15 = 3 ->
  exists st',
    cycle st = Ok st'
    /\ registers st' = <[7%nat := (pc st + 1) mod 65536]> (registers st)
    /\ registers st' !! 7%nat = Some ((pc st + 1) mod 65536)
    /\ memory st' = memory st
    /\ pc st' = extract_bits instruction 0 12
    /\ (halted st' = true <-> extract_bits instruction 0 12 = pc st).
Proof.
  intros Hreach Hrd Hop. eexists. split; [exact (cycle_fetched _ _ _ _ Hreach Hrd) |].
  rewrite (execute_closed_JAL _ _ _ _ Hop). cbn [fst snd registers memory pc halted].
  pose proof (reachable_register0 _ _ _ Hreach) as H0.
  destruct (reachable_shaped _ _ _ Hreach) as [Hregs _]. unfold NUM_REGS in Hregs.
  assert (Hid : <[0%nat := 0]> (<[7%nat := (pc st + 1) mod 65536]> (registers st))
                = <[7%nat := (pc st + 1) mod 65536]> (registers st)).
  { apply list_insert_id. rewrite list_lookup_insert_ne by lia. exact H0. }
  rewrite Hid.
  split; [reflexivity |]. split; [apply list_lookup_insert_eq; lia |].
  split; [reflexivity |]. split; [reflexivity |]. apply imm13_halts.
Qed.

(** [JAL 5] at address 0. *)
Lemma jump_and_link_cycle_witness :
  reachable ["ram[0] = 16'b0110000000000101;"] 0 (boot (<[0%nat := 0x6005]> zero_memory))
  /\ exists st',
       cycle (boot (<[0%nat := 0x6005]> zero_memory)) = Ok st'
       /\ registers st' = [0; 0; 0; 0; 0; 0; 0; 1]
       /\ pc st' = 5.
Proof.
  assert (Hreach : reachable ["ram[0] = 16'b0110000000000101;"] 0
                     (boot (<[0%nat := 0x6005]> zero_memory))).
  { exists (<[0%nat := 0x6005]> zero_memory). split; [vm_compute |]; reflexivity. }
  split; [exact Hreach |].
  destruct (jump_and_link_cycle _ _ _ 0x6005 Hreach) as (st' & Hc & Hregs & _ & _ & Hpc & _).
  - vm_compute. reflexivity.
  - reflexivity.
  - exists st'. split; [exact Hc |]. split; [rewrite Hregs | rewrite Hpc]; reflexivity.
Defined.

(** X4. A self-jump met with a PC from 8192 on halts one cycle late: the
    first cycle only brings the PC down to the immediate, the second one,
    on the same instruction, halts there. *)
Theorem self_jump_above_memory lines n st instruction :
  reachable lines n st ->
  rd (memory st) (pc st mod MEM_SIZE) = Ok instruction ->
  extract_bits instruction 13 15 = 2 ->
  extract_bits instruction 0 12 = pc st mod 8192 ->
  8192 <= pc st ->
  exists st1 st2,
    cycle st = Ok st1
    /\ halted st1 = false
    /\ pc st1 = pc st mod 8192
    /\ cycle st1 = Ok st2
    /\ halted st2 = true
    /\ pc st2 = pc st mod 8192
    /\ registers st2 = registers st
    /\ memory st2 = memory st.
Proof.
  intros Hreach Hrd Hop Himm Hge.
  pose proof (reachable_shaped _ _ _ Hreach) as Hsh.
  pose proof (cycle_fetched _ _ _ _ Hreach Hrd) as Hc1.
  rewrite (execute_closed_J _ _ _ _ Hop) in Hc1. cbn [fst snd] in Hc1.
  rewrite (reachable_insert0 _ _ _ Hreach), Himm in Hc1.
  pose proof (Z.mod_pos_bound (pc st) 8192 ltac:(lia)) as Hm.
  assert (Hh1 : bool_decide ((pc st mod 8192) mod MEM_SIZE = pc st) = false).
  { apply bool_decide_eq_false_2. rewrite MEM_SIZE_eq, Z.mod_mod by lia. lia. }
  rewrite Hh1 in Hc1.
  set (st1 := {| memory := memory st; registers := registers st;
                 pc := pc st mod 8192; halted := false |}) in *.
  assert (Hsh1 : shaped_state st1) by exact Hsh.
  assert (Hrd1 : rd (memory st1) (pc st1 mod MEM_SIZE) = Ok instruction).
  { unfold st1. cbn [memory pc]. rewrite MEM_SIZE_eq, Z.mod_mod by lia.
    rewrite <- MEM_SIZE_eq. exact Hrd. }
  pose proof (cycle_fetched_shaped st1 instruction Hsh1 Hrd1) as Hc2.
  rewrite (execute_closed_J _ _ _ _ Hop) in Hc2. cbn [fst snd] in Hc2.
  change (pc st1) with (pc st mod 8192) in Hc2.
  change (registers st1) with (registers st) in Hc2.
  change (memory st1) with (memory st) in Hc2.
  rewrite (reachable_insert0 _ _ _ Hreach), Himm in Hc2.
  assert (Hh2 : bool_decide ((pc st mod 8192) mod MEM_SIZE = pc st mod 8192) = true).
  { apply bool_decide_eq_true_2. rewrite MEM_SIZE_eq, Z.mod_mod by lia. reflexivity. }
  rewrite Hh2 in Hc2.
  exists st1. eexists. split; [exact Hc1 |]. split; [reflexivity |].
  split; [reflexivity |]. split; [exact Hc2 |]. auto.
Qed.

Lemma self_jump_above_memory_witness :
  reachable late_halt 2 late_halt_state
  /\ exists st1 st2,
       cycle late_halt_state = Ok st1
       /\ halted st1 = false
       /\ pc st1 = pc late_halt_state mod 8192
       /\ cycle st1 = Ok st2
       /\ halted st2 = true
       /\ pc st2 = pc late_halt_state mod 8192
       /\ registers st2 = registers late_halt_state
       /\ memory st2 = memory late_halt_state.
Proof.
  assert (Hreach : reachable late_halt 2 late_halt_state).
  { exists (memory late_halt_state). split; vm_compute; reflexivity. }
  split; [exact Hreach |].
  apply (self_jump_above_memory late_halt 2 late_halt_state 0x4001 Hreach).
  - vm_compute. reflexivity.
  - reflexivity.
  - reflexivity.
  - vm_compute. discriminate.
Defined.

Lemma execute_closed_JEQ instruction current_pc regs mem :
  extract_bits instruction 13 15 = 6 ->
  execute_closed instruction current_pc regs mem
  = (regs, mem,
     if reg regs (extract_bits instruction 10 12) =? reg regs (extract_bits instruction 7 9)
     then u32 (current_pc + 1 + sign_extend (extract_bits instruction 0 6))
     else u32 (current_pc + 1)).
Proof. intros Hop. unfold execute_closed. rewrite Hop. reflexivity. Qed.

Lemma execute_closed_LW instruction current_pc regs mem :
  extract_bits instruction 13 15 = 4 ->
  execute_closed instruction current_pc regs mem
  = (if extract_bits instruction 7 9 =? 0 then regs
     else <[Z.to_nat (extract_bits instruction 7 9)
            := reg mem ((reg regs (extract_bits instruction 10 12)
                         + sign_extend (extract_bits instruction 0 6)) mod 8192)]> regs,
     mem, u32 (current_pc + 1)).
Proof. intros Hop. unfold execute_closed. rewrite Hop. reflexivity. Qed.

Lemma execute_closed_SLTI instruction current_pc regs mem :
  extract_bits instruction 13 15 = 7 ->
  execute_closed instruction current_pc regs mem
  = (if extract_bits instruction 7 9 =? 0 then regs
     else <[Z.to_nat (extract_bits instruction 7 9)
            := if reg regs (extract_bits instruction 10 12)
                  <? sign_extend (extract_bits instruction 0 6)
               then 1 else 0]> regs,
     mem, u32 (current_pc + 1)).
Proof. intros Hop. unfold execute_closed. rewrite Hop. reflexivity. Qed.

(** Writing a register other than register 0 commutes with the zeroing of
    register 0 that ends the cycle. *)
Lemma commit_after_write lines n st d v :
  reachable lines n st -> 0 < d ->
  <[0%nat := 0]> (<[Z.to_nat d := v]> (registers st)) = <[Z.to_nat d := v]> (registers st).
Proof.
  intros Hreach Hd. apply list_insert_id.
  rewrite list_lookup_insert_ne by lia. exact (reachable_register0 _ _ _ Hreach).
Qed.

(** X5. JEQ in a reachable state: registers and memory are left as they
    were; on equal registers the PC becomes
    [current_pc + 1 + sign_extend imm] in unsigned arithmetic, and that PC
    reduced modulo 8192 is [current_pc + 1 + imm] modulo 8192 with [imm]
    read as a signed number; for a negative [imm] the PC stored is
    [current_pc + 1 + imm + 65536], as long as [current_pc + 65536] is below
    2^32; on different registers the PC advances by one and the machine
    does not halt. *)
Theorem branch_cycle lines n st instruction a b :
  reachable lines n st ->
  rd (memory st) (pc st mod MEM_SIZE) = Ok instruction ->
  extract_bits instruction 13 15 = 6 ->
  registers st !! Z.to_nat (extract_bits instruction 10 12) = Some a ->
  registers st !! Z.to_nat (extract_bits instruction 7 9) = Some b ->
  exists st',
    cycle st = Ok st'
    /\ registers st' = registers st
    /\ memory st' = memory st
    /\ (a = b ->
        pc st' = u32 (pc st + 1 + sign_extend (extract_bits instruction 0 6))
        /\ pc st' mod 8192
           = (pc st + 1 + signed7 (extract_bits instruction 0 6)) mod 8192)
    /\ (a = b -> 64 <= extract_bits instruction 0 6 -> pc st + 65536 < 2 ^ 32 ->
        pc st' = pc st + 1 + signed7 (extract_bits instruction 0 6) + 65536)
    /\ (a <> b -> pc st' = u32 (pc st + 1) /\ halted st' = false).
Proof.
  intros Hreach Hrd Hop Ha Hb. eexists.
  split; [exact (cycle_fetched _ _ _ _ Hreach Hrd) |].
  rewrite (execute_closed_JEQ _ _ _ _ Hop). cbn [fst snd registers memory pc halted].
  rewrite (reg_Some _ _ _ Ha), (reg_Some _ _ _ Hb).
  pose proof (imm7_range instruction) as H7.
  pose proof (reachable_pc _ _ _ Hreach) as Hpc.
  split; [exact (reachable_insert0 _ _ _ Hreach) |]. split; [reflexivity |].
  split; [| split].
  - intros ->. rewrite Z.eqb_refl. split; [reflexivity |].
    apply branch_target_address. exact H7.
  - intros -> Hneg Hroom. rewrite Z.eqb_refl.
    rewrite (sign_extend_signed7 _ H7). unfold signed7.
    destruct (extract_bits instruction 0 6 <? 64) eqn:Hlt; [lia |].
    unfold u32. Z.div_mod_to_equations. lia.
  - intros Hne. apply Z.eqb_neq in Hne. rewrite Hne.
    split; [reflexivity | apply next_address_never_halts].
Qed.

Lemma branch_cycle_witness :
  reachable late_halt 1
    (Machine (memory late_halt_state) [0; 0; 0; 0; 0; 0; 0; 0] 2 false)
  /\ exists st',
       cycle (Machine (memory late_halt_state) [0; 0; 0; 0; 0; 0; 0; 0] 2 false) = Ok st'
       /\ pc st' = 65537.
Proof.
  assert (Hreach : reachable late_halt 1
            (Machine (memory late_halt_state) [0; 0; 0; 0; 0; 0; 0; 0] 2 false)).
  { exists (memory late_halt_state). split; vm_compute; reflexivity. }
  split; [exact Hreach |].
  destruct (branch_cycle _ _ _ 0xC07E 0 0 Hreach) as (st' & Hc & _ & _ & Htaken & _).
  - vm_compute. reflexivity.
  - reflexivity.
  - reflexivity.
  - reflexivity.
  - exists st'. split; [exact Hc |]. destruct (Htaken eq_refl) as [-> _]. reflexivity.
Defined.

(** X6. LW in a reachable state: the word at the effective address
    [(a + sign_extend imm) & 0x1FFF], which is [a + imm] modulo 8192 with
    [imm] read as a signed number, is copied as it is into the destination
    unless that is register 0; memory is left as it was, the PC advances by
    one and the machine does not halt. *)
Theorem load_cycle lines n st instruction a :
  reachable lines n st ->
  rd (memory st) (pc st mod MEM_SIZE) = Ok instruction ->
  extract_bits instruction 13 15 = 4 ->
  registers st !! Z.to_nat (extract_bits instruction 10 12) = Some a ->
  exists st' v,
    cycle st = Ok st'
    /\ memory st
         !! Z.to_nat (Z.land (a + sign_extend (extract_bits instruction 0 6)) 0x1FFF)
       = Some v
    /\ Z.land (a + sign_extend (extract_bits instruction 0 6)) 0x1FFF
       = (a + signed7 (extract_bits instruction 0 6)) mod 8192
    /\ (extract_bits instruction 7 9 <> 0 ->
        registers st' = <[Z.to_nat (extract_bits instruction 7 9) := v]> (registers st))
    /\ (extract_bits instruction 7 9 = 0 -> registers st' = registers st)
    /\ memory st' = memory st
    /\ pc st' = u32 (pc st + 1)
    /\ halted st' = false.
Proof.
  intros Hreach Hrd Hop Ha.
  pose proof (imm7_range instruction) as H7.
  destruct (reachable_shaped _ _ _ Hreach) as [Hregs Hmem]. rewrite MEM_SIZE_eq in Hmem.
  set (addr := Z.land (a + sign_extend (extract_bits instruction 0 6)) 0x1FFF).
  pose proof (mask13_range (a + sign_extend (extract_bits instruction 0 6))) as Haddr.
  fold addr in Haddr.
  eexists. exists (reg (memory st) addr).
  split; [exact (cycle_fetched _ _ _ _ Hreach Hrd) |].
  rewrite (execute_closed_LW _ _ _ _ Hop). cbn [fst snd registers memory pc halted].
  rewrite (reg_Some _ _ _ Ha). unfold addr. rewrite mask13. fold addr.
  split; [apply reg_lookup; unfold addr in *; rewrite mask13 in Haddr; lia |].
  split.
  { rewrite (sign_extend_signed7 _ H7). generalize (signed7 (extract_bits instruction 0 6)).
    intros s. Z.div_mod_to_equations. lia. }
  pose proof (field3_range instruction 7 ltac:(lia)) as Hd. change (7 + 2) with 9 in Hd.
  split; [| split].
  - intros Hne. rewrite (proj2 (Z.eqb_neq _ _) Hne).
    apply (commit_after_write _ _ _ _ _ Hreach). lia.
  - intros ->. exact (reachable_insert0 _ _ _ Hreach).
  - split; [reflexivity |]. split; [reflexivity | apply next_address_never_halts].
Qed.

Lemma load_cycle_witness :
  reachable load_next_word 0 (boot (<[0%nat := 0x8081]> (<[1%nat := 0x1234]> zero_memory)))
  /\ exists st',
       cycle (boot (<[0%nat := 0x8081]> (<[1%nat := 0x1234]> zero_memory))) = Ok st'
       /\ registers st' = [0; 0x1234; 0; 0; 0; 0; 0; 0].
Proof.
  assert (Hreach : reachable load_next_word 0
                     (boot (<[0%nat := 0x8081]> (<[1%nat := 0x1234]> zero_memory)))).
  { exists (<[0%nat := 0x8081]> (<[1%nat := 0x1234]> zero_memory)).
    split; [vm_compute |]; reflexivity. }
  split; [exact Hreach |].
  destruct (load_cycle _ _ _ 0x8081 0 Hreach)
    as (st' & v & Hc & Hv & _ & Hwrite & _).
  - vm_compute. reflexivity.
  - reflexivity.
  - reflexivity.
  - exists st'. split; [exact Hc |].
    rewrite Hwrite by (vm_compute; discriminate).
    vm_compute in Hv. injection Hv as <-. reflexivity.
Defined.

(** X7. SLTI in a reachable state: the destination, unless it is register
    0, receives 1 when the register is below the sign-extended immediate
    compared as unsigned 16-bit values, else 0; so a negative immediate
    counts as [65536 + imm]. Memory is left as it was, the PC advances by
    one and the machine does not halt. *)
Theorem set_less_than_immediate_cycle lines n st instruction a :
  reachable lines n st ->
  rd (memory st) (pc st mod MEM_SIZE) = Ok instruction ->
  extract_bits instruction 13 15 = 7 ->
  registers st !! Z.to_nat (extract_bits instruction 10 12) = Some a ->
  exists st',
    cycle st = Ok st'
    /\ (extract_bits instruction 7 9 <> 0 ->
        registers st'
        = <[Z.to_nat (extract_bits instruction 7 9)
            := if a <? sign_extend (extract_bits instruction 0 6) then 1 else 0]>
            (registers st))
    /\ (extract_bits instruction 7 9 = 0 -> registers st' = registers st)
    /\ (extract_bits instruction 0 6 < 64 ->
        sign_extend (extract_bits instruction 0 6) = extract_bits instruction 0 6)
    /\ (64 <= extract_bits instruction 0 6 ->
        sign_extend (extract_bits instruction 0 6)
        = 65536 + signed7 (extract_bits instruction 0 6))
    /\ memory st' = memory st
    /\ pc st' = u32 (pc st + 1)
    /\ halted st' = false.
Proof.
  intros Hreach Hrd Hop Ha.
  pose proof (imm7_range instruction) as H7.
  destruct (sign_extend_facts _ H7) as [Hlow Hhigh].
  eexists. split; [exact (cycle_fetched _ _ _ _ Hreach Hrd) |].
  rewrite (execute_closed_SLTI _ _ _ _ Hop). cbn [fst snd registers memory pc halted].
  rewrite (reg_Some _ _ _ Ha).
  pose proof (field3_range instruction 7 ltac:(lia)) as Hd. change (7 + 2) with 9 in Hd.
  split; [| split; [| split; [| split]]].
  - intros Hne. rewrite (proj2 (Z.eqb_neq _ _) Hne).
    apply (commit_after_write _ _ _ _ _ Hreach). lia.
  - intros ->. exact (reachable_insert0 _ _ _ Hreach).
  - intros Hlt. exact (proj2 (Hlow Hlt)).
  - intros Hge. destruct (Hhigh Hge) as (_ & _ & _ & -> & _). unfold signed7.
    destruct (extract_bits instruction 0 6 <? 64) eqn:Hlt; lia.
  - split; [reflexivity |]. split; [reflexivity | apply next_address_never_halts].
Qed.

(** [SLTI $1, $0, -1] at address 0: 0 is below 0xFFFF. *)
Lemma set_less_than_immediate_cycle_witness :
  reachable ["ram[0] = 16'b1110000011111111;"] 0 (boot (<[0%nat := 0xE0FF]> zero_memory))
  /\ exists st',
       cycle (boot (<[0%nat := 0xE0FF]> zero_memory)) = Ok st'
       /\ registers st' = [0; 1; 0; 0; 0; 0; 0; 0].
Proof.
  assert (Hreach : reachable ["ram[0] = 16'b1110000011111111;"] 0
                     (boot (<[0%nat := 0xE0FF]> zero_memory))).
  { exists (<[0%nat := 0xE0FF]> zero_memory). split; [vm_compute |]; reflexivity. }
  split; [exact Hreach |].
  destruct (set_less_than_immediate_cycle _ _ _ 0xE0FF 0 Hreach)
    as (st' & Hc & Hwrite & _).
  - vm_compute. reflexivity.
  - reflexivity.
  - reflexivity.
  - exists st'. split; [exact Hc |].
    rewrite Hwrite by (vm_compute; discriminate). reflexivity.
Defined.

(** X8. A store followed by a load from the same base register and
    immediate reads back the stored value: when the cycle after an SW
    fetches an LW with the same regA and immediate fields and a destination
    other than register 0, that destination then holds the value the SW
    stored. *)
Theorem store_then_load lines n st sw lw st1 a b :
  reachable lines n st ->
  rd (memory st) (pc st mod MEM_SIZE) = Ok sw ->
  extract_bits sw 13 15 = 5 ->
  registers st !! Z.to_nat (extract_bits sw 10 12) = Some a ->
  registers st !! Z.to_nat (extract_bits sw 7 9) = Some b ->
  cycle st = Ok st1 ->
  rd (memory st1) (pc st1 mod MEM_SIZE) = Ok lw ->
  extract_bits lw 13 15 = 4 ->
  extract_bits lw 10 12 = extract_bits sw 10 12 ->
  extract_bits lw 0 6 = extract_bits sw 0 6 ->
  extract_bits lw 7 9 <> 0 ->
  exists st2,
    cycle st1 = Ok st2
    /\ registers st2 !! Z.to_nat (extract_bits lw 7 9) = Some b
    /\ memory st2 = memory st1.
Proof.
  intros Hreach Hrd Hsw Ha Hb Hc1 Hrd1 Hlw HA Himm Hd.
  pose proof (reachable_shaped _ _ _ Hreach) as Hsh.
  pose proof (cycle_shaped _ _ Hsh Hc1) as Hsh1.
  rewrite (cycle_fetched _ _ _ _ Hreach Hrd) in Hc1.
  rewrite (proj2 (execute_closed_memory sw (pc st) (registers st) (memory st)) Hsw) in Hc1.
  cbn [fst snd] in Hc1. rewrite (reachable_insert0 _ _ _ Hreach) in Hc1.
  rewrite (reg_Some _ _ _ Ha), (reg_Some _ _ _ Hb) in Hc1.
  injection Hc1 as <-. cbn [memory pc registers] in *.
  eexists. split; [exact (cycle_fetched_shaped _ _ Hsh1 Hrd1) |].
  rewrite (execute_closed_LW _ _ _ _ Hlw). cbn [fst snd registers memory].
  rewrite HA, Himm, (reg_Some _ _ _ Ha), (proj2 (Z.eqb_neq _ _) Hd).
  destruct Hsh as [Hregs Hmem]. unfold NUM_REGS in Hregs. rewrite MEM_SIZE_eq in Hmem.
  pose proof (Z.mod_pos_bound (a + sign_extend (extract_bits sw 0 6)) 8192 ltac:(lia)) as Haddr.
  pose proof (field3_range lw 7 ltac:(lia)) as Hr. change (7 + 2) with 9 in Hr.
  split; [| reflexivity].
  rewrite list_lookup_insert_ne by lia.
  rewrite list_lookup_insert_eq by lia.
  f_equal. unfold reg. rewrite list_lookup_insert_eq by lia. reflexivity.
Qed.

Lemma store_then_load_witness :
  reachable store_then_load_image 1
    (Machine store_then_load_memory [0; 7; 0; 0; 0; 0; 0; 0] 1 false)
  /\ exists st2,
       cycle (Machine (<[5%nat := 7]> store_then_load_memory)
                      [0; 7; 0; 0; 0; 0; 0; 0] 2 false) = Ok st2
       /\ registers st2 !! Z.to_nat (extract_bits 0x8105 7 9) = Some 7.
Proof.
  assert (Hreach : reachable store_then_load_image 1
                     (Machine store_then_load_memory [0; 7; 0; 0; 0; 0; 0; 0] 1 false)).
  { exists store_then_load_memory. split; vm_compute; reflexivity. }
  split; [exact Hreach |].
  destruct (store_then_load _ _ _ 0xA085 0x8105
              (Machine (<[5%nat := 7]> store_then_load_memory)
                       [0; 7; 0; 0; 0; 0; 0; 0] 2 false) 0 7 Hreach)
    as (st2 & Hc & Hv & _).
  - vm_compute. reflexivity.
  - reflexivity.
  - reflexivity.
  - reflexivity.
  - vm_compute. reflexivity.
  - vm_compute. reflexivity.
  - reflexivity.
  - reflexivity.
  - reflexivity.
  - vm_compute. discriminate.
  - exists st2. split; [exact Hc | exact Hv].
Defined.

(** ** Images that never halt *)

Lemma reg_all_zero (a : list Z) i : Forall (fun w => w = 0) a -> reg a i = 0.
Proof.
  intros Ha. unfold reg. destruct (a !! Z.to_nat i) as [v |] eqn:Hv; [| reflexivity].
  exact (Forall_lookup_1 _ _ _ _ Ha Hv).
Qed.

Lemma all_zero_cycle st :
  shaped_state st ->
  Forall (fun w => w = 0) (memory st) ->
  registers st = replicate (Z.to_nat NUM_REGS) 0 ->
  cycle st = Ok {| memory := memory st;
                   registers := registers st;
                   pc := u32 (pc st + 1);
                   halted := false |}.
Proof.
  intros Hsh Hmem Hregs. rewrite (cycle_closed_form st Hsh). unfold cycle_closed.
  rewrite (reg_all_zero _ _ Hmem).
  change (execute_closed 0 (pc st) (registers st) (memory st))
    with (registers st, memory st, u32 (pc st + 1)).
  cbn [fst snd]. rewrite next_address_never_halts, Hregs. reflexivity.
Qed.

Lemma all_zero_simulate fuel : forall done st,
  shaped_state st ->
  Forall (fun w => w = 0) (memory st) ->
  registers st = replicate (Z.to_nat NUM_REGS) 0 ->
  0 <= pc st < 2 ^ 32 ->
  halted st = false ->
  exists st',
    simulate fuel done st = OutOfFuel st'
    /\ pc st' = u32 (pc st + Z.of_nat fuel)
    /\ halted st' = false
    /\ registers st' = replicate (Z.to_nat NUM_REGS) 0.
Proof.
  induction fuel as [| fuel IH]; intros done st Hsh Hmem Hregs Hpc Hh.
  - exists st. split; [simpl; rewrite Hh; reflexivity |].
    split; [| split; [exact Hh | exact Hregs]].
    rewrite Z.add_0_r. symmetry. apply u32_small. exact Hpc.
  - pose proof (all_zero_cycle st Hsh Hmem Hregs) as Hc.
    rewrite (simulate_cycle fuel done st _ Hh Hc).
    destruct (IH (S done) _ (cycle_shaped _ _ Hsh Hc) Hmem Hregs
                (u32_range (pc st + 1)) eq_refl)
      as (st' & Hsim & Hpc' & Hrest).
    exists st'. split; [exact Hsim |]. split; [| exact Hrest].
    rewrite Hpc'. cbn [pc]. unfold u32.
    rewrite Nat2Z.inj_succ, Z.add_mod_idemp_l by lia. f_equal. lia.
Qed.

(** X9. An image that loads to a memory of zero words, the empty file among
    them, never halts: every word decodes to an ADD with destination
    register 0, so each cycle only advances the PC, which wraps at 2^32;
    with any amount of fuel the run is still going. *)
Theorem all_zero_image_never_halts lines mem fuel :
  loads lines mem ->
  Forall (fun w => w = 0) mem ->
  exists st,
    e20sim fuel lines = Ran (OutOfFuel st)
    /\ pc st = Z.of_nat fuel mod 2 ^ 32
    /\ halted st = false
    /\ registers st = replicate (Z.to_nat NUM_REGS) 0.
Proof.
  intros Hload Hzero. unfold e20sim. unfold loads in Hload. rewrite Hload.
  destruct (all_zero_simulate fuel 0 (boot mem) (loads_shaped _ _ Hload) Hzero eq_refl
              ltac:(simpl; lia) eq_refl) as (st & Hsim & Hpc & Hrest).
  exists st. split; [rewrite Hsim; reflexivity |]. split; [exact Hpc | exact Hrest].
Qed.

(** The empty file. *)
Lemma all_zero_image_never_halts_witness :
  loads [] zero_memory
  /\ Forall (fun w => w = 0) zero_memory
  /\ exists st,
       e20sim 3 [] = Ran (OutOfFuel st)
       /\ pc st = Z.of_nat 3 mod 2 ^ 32
       /\ halted st = false
       /\ registers st = replicate (Z.to_nat NUM_REGS) 0.
Proof.
  assert (Hload : loads [] zero_memory) by reflexivity.
  assert (Hzero : Forall (fun w => w = 0) zero_memory)
    by (apply Forall_replicate; reflexivity).
  split; [exact Hload |]. split; [exact Hzero |].
  exact (all_zero_image_never_halts [] zero_memory 3 Hload Hzero).
Defined.

(** * Further properties of the helper functions *)

(** X10. For bit positions [0 <= start <= end <= 31] of a 32-bit word and
    a field of up to 30 bits (beyond that the mask overflows [int], and from
    position 32 on the shift is undefined), [extract_bits] returns the bits
    [start .. end] of the word, moved down to bit 0: bit [i] of the result
    is bit [start + i] of the word for [i <= end - start], and no higher
    bit is set. *)
Theorem extract_bits_testbit instruction start end_ i :
  0 <= instruction < 2 ^ 32 ->
  0 <= start <= end_ -> end_ <= 31 -> end_ - start + 1 <= 30 -> 0 <= i ->
  Z.testbit (extract_bits instruction start end_) i
  = (i <=? end_ - start) && Z.testbit instruction (start + i).
Proof.
  intros Hword Hse Hend Hw Hi. rewrite extract_bits_div_mod by lia.
  destruct (i <=? end_ - start) eqn:Hle; simpl.
  - rewrite Z.mod_pow2_bits_low by lia.
    rewrite Z.div_pow2_bits by lia. f_equal. lia.
  - apply Z.mod_pow2_bits_high. lia.
Qed.

(** Bit 3 of the register field of 0x2481 is bit 13 of the word. *)
Lemma extract_bits_testbit_witness :
  Z.testbit (extract_bits 0x2481 10 12) 0 = (0 <=? 12 - 10) && Z.testbit 0x2481 (10 + 0).
Proof. apply extract_bits_testbit; lia. Defined.

(** X11. The fields the decoder reads cover a 16-bit word without overlap:
    the word is rebuilt from opcode, regA, regB and the 7-bit immediate,
    from opcode and the 13-bit immediate, and from opcode, regA, regB,
    regDst and the sub-code; two words with the same fields are equal. *)
Theorem fields_rebuild_word instruction :
  0 <= instruction < 65536 ->
  instruction
  = extract_bits instruction 13 15 * 8192 + extract_bits instruction 10 12 * 1024
    + extract_bits instruction 7 9 * 128 + extract_bits instruction 0 6
  /\ instruction = extract_bits instruction 13 15 * 8192 + extract_bits instruction 0 12
  /\ instruction
     = extract_bits instruction 13 15 * 8192 + extract_bits instruction 10 12 * 1024
       + extract_bits instruction 7 9 * 128 + extract_bits instruction 4 6 * 16
       + extract_bits instruction 0 3.
Proof.
  intros Hw. rewrite !extract_bits_div_mod by lia.
  change (2 ^ 13) with 8192. change (2 ^ 10) with 1024. change (2 ^ 7) with 128.
  change (2 ^ 4) with 16. change (2 ^ 0) with 1.
  change (2 ^ (15 - 13 + 1)) with 8. change (2 ^ (12 - 10 + 1)) with 8.
  change (2 ^ (9 - 7 + 1)) with 8. change (2 ^ (6 - 4 + 1)) with 8.
  change (2 ^ (6 - 0 + 1)) with 128. change (2 ^ (12 - 0 + 1)) with 8192.
  change (2 ^ (3 - 0 + 1)) with 16.
  repeat split; Z.div_mod_to_equations; lia.
Qed.

Lemma fields_rebuild_word_witness :
  0x2481
  = extract_bits 0x2481 13 15 * 8192 + extract_bits 0x2481 10 12 * 1024
    + extract_bits 0x2481 7 9 * 128 + extract_bits 0x2481 0 6.
Proof. apply (fields_rebuild_word 0x2481). lia. Defined.

(** X12. Adding a sign-extended immediate adds the signed number: under
    the 16-bit mask of ADDI the result is [a + imm] modulo 65536, under the
    13-bit mask of the LW and SW address it is [a + imm] modulo 8192, with
    [imm] in -64 .. 63; the low seven bits of the extension are the
    immediate itself, and on any input the result fits 16 bits. *)
Theorem sign_extend_adds_signed v :
  0 <= v < 128 ->
  (forall a, Z.land (u32 (a + sign_extend v)) 0xFFFF = (a + signed7 v) mod 65536)
  /\ (forall a, Z.land (u32 (a + sign_extend v)) 0x1FFF = (a + signed7 v) mod 8192)
  /\ -64 <= signed7 v <= 63
  /\ sign_extend v mod 128 = v
  /\ (forall x, 0 <= sign_extend x < 65536).
Proof.
  intros Hv. pose proof (sign_extend_signed7 v Hv) as Hs.
  split; [| split; [| split; [| split]]].
  - intros a. rewrite mask16_u32, Hs. generalize (signed7 v). intros s.
    Z.div_mod_to_equations. lia.
  - intros a. rewrite mask13_u32, Hs. generalize (signed7 v). intros s.
    Z.div_mod_to_equations. lia.
  - unfold signed7. destruct (v <? 64) eqn:Hlt; lia.
  - rewrite Hs. unfold signed7. destruct (v <? 64) eqn:Hlt;
      Z.div_mod_to_equations; lia.
  - intros x. unfold sign_extend. apply mask16_range.
Qed.

(** 100 + (-64) = 36. *)
Lemma sign_extend_adds_signed_witness :
  Z.land (u32 (100 + sign_extend 64)) 0xFFFF = (100 + signed7 64) mod 65536.
Proof. apply (sign_extend_adds_signed 64). lia. Defined.

(** * Further properties of the loader *)

Lemma load_contents lines : forall (k : nat) mem0 mem,
  Z.of_nat (length mem0) = MEM_SIZE ->
  load_machine_code lines (Z.of_nat k) mem0 = Loaded mem ->
  (forall i line, lines !! i = Some line ->
     exists instr,
       line_accepted (Z.of_nat (k + i)) line instr /\ mem !! (k + i)%nat = Some instr)
  /\ (forall j, (j < k \/ k + length lines <= j)%nat -> mem !! j = mem0 !! j).
Proof.
  induction lines as [| l lines IH]; intros k mem0 mem Hlen H.
  - simpl in H. injection H as <-. split; [intros i line Hi; discriminate | auto].
  - apply load_cons_Loaded in H as (instr & Hacc & H).
    rewrite Nat2Z.id in H.
    replace (Z.of_nat k + 1) with (Z.of_nat (S k)) in H by lia.
    assert (Hlen' : Z.of_nat (length (<[k := instr]> mem0)) = MEM_SIZE)
      by (rewrite length_insert; exact Hlen).
    destruct (IH (S k) _ mem Hlen' H) as [Hwords Hrest].
    assert (Hk : (k < length mem0)%nat)
      by (destruct Hacc as (_ & _ & _ & _ & _ & Hlt); lia).
    split.
    + intros i line Hi. destruct i as [| i]; simpl in Hi.
      * injection Hi as <-. exists instr. rewrite Nat.add_0_r. split; [exact Hacc |].
        rewrite (Hrest k) by lia. apply list_lookup_insert_eq. exact Hk.
      * destruct (Hwords i line Hi) as (w & Hw & Hm). exists w.
        replace (k + S i)%nat with (S k + i)%nat by lia. auto.
    + intros j Hj. simpl length in Hj. rewrite (Hrest j) by lia.
      apply list_lookup_insert_ne. lia.
Qed.

(** X13. After a successful load the memory has its 8192 words: word [i]
    is the value of the literal of line [i], for every line of the image,
    and every word behind the image is 0; the image has at most 8192
    lines. *)
Theorem loaded_memory lines mem :
  loads lines mem ->
  Z.of_nat (length mem) = MEM_SIZE
  /\ Z.of_nat (length lines) <= MEM_SIZE
  /\ (forall i line, lines !! i = Some line ->
        exists instr, line_accepted (Z.of_nat i) line instr /\ mem !! i = Some instr)
  /\ (forall i, (length lines <= i)%nat -> Z.of_nat i < MEM_SIZE -> mem !! i = Some 0).
Proof.
  intros Hload.
  destruct (load_contents lines 0 zero_memory mem zero_memory_length Hload)
    as [Hwords Hrest].
  split; [rewrite (load_length _ _ _ _ Hload); exact zero_memory_length |].
  split; [| split].
  - destruct (Nat.eq_dec (length lines) 0%nat) as [Hnone | Hsome].
    + rewrite Hnone, MEM_SIZE_eq. lia.
    + destruct (lookup_lt_is_Some_2 lines (length lines - 1)) as [line Hline]; [lia |].
      destruct (Hwords _ _ Hline) as (w & (_ & _ & _ & _ & _ & Hlt) & _). lia.
  - intros i line Hi. exact (Hwords i line Hi).
  - intros i Hge Hlt. rewrite (Hrest i) by lia.
    unfold zero_memory. apply lookup_replicate_2. lia.
Qed.

Lemma loaded_memory_witness :
  loads load_next_word (<[0%nat := 0x8081]> (<[1%nat := 0x1234]> zero_memory))
  /\ exists instr,
       line_accepted (Z.of_nat 1) "ram[1] = 16'b0001001000110100;" instr
       /\ (<[0%nat := 0x8081]> (<[1%nat := 0x1234]> zero_memory)) !! 1%nat = Some instr.
Proof.
  assert (Hload : loads load_next_word (<[0%nat := 0x8081]> (<[1%nat := 0x1234]> zero_memory)))
    by (vm_compute; reflexivity).
  split; [exact Hload |].
  exact (proj1 (proj2 (proj2 (loaded_memory _ _ Hload))) 1%nat _ eq_refl).
Defined.

(** X14. The two numerals of a matching line are converted before its
    address is checked, and nothing catches what [stoi] throws: on the
    first line whose address does not convert, or whose address converts
    and whose literal does not, the process is terminated by that
    exception; it neither loads the image nor exits with code 1, and no
    cycle runs. *)
Theorem conversion_failure_terminates good bad rest sm1 sm2 e fuel :
  (exists mem, loads good mem) ->
  regex_match bad = Some (sm1, sm2) ->
  stoi sm1 10 = inl e \/ (exists addr, stoi sm1 10 = inr addr /\ stoi sm2 2 = inl e) ->
  e20sim fuel (good ++ bad :: rest) = Terminated e
  /\ exit_code (e20sim fuel (good ++ bad :: rest)) = None
  /\ cycles_run (e20sim fuel (good ++ bad :: rest)) = 0%nat.
Proof.
  intros [mem Hgood] Hre Hconv.
  assert (He : e20sim fuel (good ++ bad :: rest) = Terminated e).
  { unfold e20sim. unfold loads in Hgood.
    rewrite (load_app good (bad :: rest) 0 zero_memory mem Hgood). simpl.
    rewrite Hre. destruct Hconv as [Ha | (addr & Ha & Hi)].
    - rewrite Ha. reflexivity.
    - rewrite Ha, Hi. reflexivity. }
  rewrite He. auto.
Qed.

(** A second line with address 7 (out of sequence) and literal 2. *)
Lemma conversion_failure_terminates_witness :
  (exists mem, loads jump_to_self mem)
  /\ e20sim 5 (jump_to_self ++ "ram[7] = 16'b2;" :: []) = Terminated invalid_argument
  /\ exit_code (e20sim 5 (jump_to_self ++ "ram[7] = 16'b2;" :: [])) = None
  /\ cycles_run (e20sim 5 (jump_to_self ++ "ram[7] = 16'b2;" :: [])) = 0%nat.
Proof.
  assert (Hgood : exists mem, loads jump_to_self mem).
  { exists (<[0%nat := 0x4000]> zero_memory). vm_compute. reflexivity. }
  split; [exact Hgood |].
  apply (conversion_failure_terminates jump_to_self "ram[7] = 16'b2;" [] "7" "2"
           invalid_argument 5 Hgood).
  - reflexivity.
  - right. exists 7. split; reflexivity.
Defined.

Lemma strtol_digits_stops base b d tail acc any :
  is_digit d && (code d - 48 <? base) = false ->
  strtol_digits base (b +:+ String d tail) acc any = strtol_digits base b acc any.
Proof.
  intros Hd. revert acc any. induction b as [| c b IH]; intros acc any; simpl.
  - rewrite Hd. reflexivity.
  - destruct (is_digit c && (code c - 48 <? base)); [apply IH | reflexivity].
Qed.

Lemma not_bit_stops d : is_bit d = false -> is_digit d && (code d - 48 <? 2) = false.
Proof.
  unfold is_bit, is_digit. intros H. apply orb_false_elim in H as [H0 H1].
  apply Z.eqb_neq in H0. apply Z.eqb_neq in H1.
  destruct ((48 <=? code d) && (code d <=? 57)) eqn:Hdig; [| reflexivity].
  apply andb_prop in Hdig as [Hlo Hhi]. simpl. apply Z.ltb_ge. lia.
Qed.

(** X15. The loader reads a literal up to its first character that is not
    0 or 1 and ignores the rest: a line whose literal is [b] followed by
    such a character is taken, and stored, exactly as the line with the
    literal [b] would be. *)
Theorem literal_read_to_first_non_binary line sm1 b d tail expected instr :
  regex_match line = Some (sm1, b +:+ String d tail) ->
  is_bit d = false ->
  (line_accepted expected line instr
   <-> stoi sm1 10 = inr expected /\ stoi b 2 = inr instr /\ expected < MEM_SIZE).
Proof.
  intros Hre Hd.
  assert (Hstoi : stoi (b +:+ String d tail) 2 = stoi b 2).
  { unfold stoi. rewrite (strtol_digits_stops 2 b d tail 0 false (not_bit_stops d Hd)).
    reflexivity. }
  unfold line_accepted. split.
  - intros (s1 & s2 & Hre' & Ha & Hi & Hlt). rewrite Hre in Hre'.
    injection Hre' as <- <-. rewrite Hstoi in Hi. auto.
  - intros (Ha & Hi & Hlt). exists sm1, (b +:+ String d tail).
    rewrite Hstoi. auto.
Qed.

(** The literal 1012 is stored as 5. *)
Lemma literal_read_to_first_non_binary_witness :
  regex_match "ram[0] = 16'b1012;" = Some ("0", "101" +:+ String "2" "")
  /\ line_accepted 0 "ram[0] = 16'b1012;" 5.
Proof.
  assert (Hre : regex_match "ram[0] = 16'b1012;" = Some ("0", "101" +:+ String "2" ""))
    by reflexivity.
  split; [exact Hre |].
  apply (literal_read_to_first_non_binary _ "0" "101" "2"%char "" 0 5 Hre).
  - reflexivity.
  - repeat split; vm_compute; reflexivity.
Defined.

Lemma too_large_at lines : forall expected mem a,
  expected <= MEM_SIZE ->
  load_machine_code lines expected mem = LoadExit (TooLarge a) ->
  a = MEM_SIZE
  /\ MEM_SIZE - expected < Z.of_nat (length lines)
  /\ exists mem',
       load_machine_code (take (Z.to_nat (MEM_SIZE - expected)) lines) expected mem
       = Loaded mem'.
Proof.
  induction lines as [| line lines IH]; intros expected mem a Hle H.
  - discriminate.
  - simpl in H.
    destruct (regex_match line) as [[sm1 sm2] |] eqn:Hre; [| discriminate].
    destruct (stoi sm1 10) as [e | addr] eqn:Ha; [discriminate |].
    destruct (stoi sm2 2) as [e | instr] eqn:Hi; [discriminate |].
    destruct (addr =? expected) eqn:Heq; simpl in H; [| discriminate].
    apply Z.eqb_eq in Heq. subst addr.
    destruct (MEM_SIZE <=? expected) eqn:Hfull.
    + injection H as <-. assert (expected = MEM_SIZE) as -> by lia.
      split; [reflexivity |]. split; [simpl length; lia |].
      rewrite Z.sub_diag. exists mem. reflexivity.
    + destruct (IH (expected + 1) _ a ltac:(lia) H) as (-> & Hlen & mem' & Hload).
      split; [reflexivity |]. split; [simpl length; lia |].
      exists mem'.
      replace (Z.to_nat (MEM_SIZE - expected))
        with (S (Z.to_nat (MEM_SIZE - (expected + 1)))) by lia.
      rewrite firstn_cons.
      rewrite (load_cons_accepted line _ expected mem instr); [exact Hload |].
      exists sm1, sm2. repeat split; auto. lia.
Qed.

(** X16. "Program too large" is reported at one place only: on line 8193
    of an image whose first 8192 lines were taken, and with the address
    8192; no other line and no other address is ever reported so. *)
Theorem too_large_only_behind_full_memory lines a :
  load_machine_code lines 0 zero_memory = LoadExit (TooLarge a) ->
  a = 8192
  /\ 8192 < Z.of_nat (length lines)
  /\ exists mem, loads (take (Z.to_nat MEM_SIZE) lines) mem.
Proof.
  intros H.
  destruct (too_large_at lines 0 zero_memory a ltac:(rewrite MEM_SIZE_eq; lia) H)
    as (Ha & Hlen & mem & Hload).
  rewrite MEM_SIZE_eq in Ha, Hlen. split; [exact Ha |]. split; [lia |].
  exists mem. rewrite Z.sub_0_r in Hload. exact Hload.
Qed.

Lemma too_large_only_behind_full_memory_witness :
  load_machine_code oversized_image 0 zero_memory = LoadExit (TooLarge 8192)
  /\ 8192 < Z.of_nat (length oversized_image).
Proof.
  assert (H : load_machine_code oversized_image 0 zero_memory = LoadExit (TooLarge 8192))
    by (vm_compute; reflexivity).
  split; [exact H |].
  exact (proj1 (proj2 (too_large_only_behind_full_memory oversized_image 8192 H))).
Defined.

(** * Properties of the command line and of [main] *)

Lemma scan_args_clean args : forall filename do_help arg_error filename',
  scan_args args filename do_help arg_error = (filename', false, false) ->
  do_help = false /\ arg_error = false
  /\ ((args = [] /\ filename' = filename)
      \/ (filename = None
          /\ exists f, args = [f] /\ starts_with_dash f = false /\ filename' = Some f)).
Proof.
  induction args as [| arg args IH]; intros filename do_help arg_error filename' H.
  - simpl in H. injection H as <- <- <-. auto.
  - simpl in H. destruct (starts_with_dash arg) eqn:Hdash.
    + destruct (bool_decide (arg = "-h") || bool_decide (arg = "--help")).
      * apply IH in H as (Habs & _). discriminate.
      * apply IH in H as (_ & Habs & _). discriminate.
    + destruct filename as [f0 |].
      * apply IH in H as (_ & Habs & _). discriminate.
      * apply IH in H as (-> & -> & [[-> ->] | [Habs _]]); [| discriminate].
        split; [reflexivity |]. split; [reflexivity |]. right.
        split; [reflexivity |]. exists arg. auto.
Qed.

(** X17. [main] goes beyond the usage message exactly when the arguments
    are one single string that does not start with a dash; then it opens
    that file and, if it opens, loads and runs its lines. Any other
    argument list, [-h] and [--help] next to a file name among them, ends
    with the usage message and return value 1. *)
Theorem command_line_accepted open fuel args :
  (main open fuel args <> Usage ->
   exists f, args = [f] /\ starts_with_dash f = false)
  /\ (forall f, args = [f] -> starts_with_dash f = false ->
      main open fuel args
      = match open f with
        | None => CannotOpen f
        | Some lines =>
            Ended (e20sim fuel lines)
              match e20sim fuel lines with
              | Ran (Finished st _) =>
                  match print_state (pc st) (registers st) (memory st) 128 with
                  | Ok text => Some text
                  | Err _ => None
                  end
              | _ => None
              end
        end)
  /\ (main open fuel args = Usage -> main_exit_code (main open fuel args) = Some 1).
Proof.
  split; [| split].
  - unfold main. intros H.
    destruct (scan_args args None false false) as [[filename do_help] arg_error] eqn:Hs.
    destruct arg_error; [contradiction |]. destruct do_help; [contradiction |].
    simpl in H. destruct filename as [f |]; [| contradiction].
    apply scan_args_clean in Hs as (_ & _ & [[-> Habs] | (_ & f' & -> & Hdash & _)]);
      [discriminate |].
    exists f'. auto.
  - intros f -> Hdash. unfold main. simpl. rewrite Hdash. reflexivity.
  - intros ->. reflexivity.
Qed.

Lemma command_line_accepted_witness :
  main (fun _ => None) 5 ["prog.bin"] <> Usage
  /\ exists f, ["prog.bin"] = [f] /\ starts_with_dash f = false.
Proof.
  assert (H : main (fun _ => None) 5 ["prog.bin"] <> Usage) by (vm_compute; discriminate).
  split; [exact H |].
  exact (proj1 (command_line_accepted (fun _ => None) 5 ["prog.bin"]) H).
Defined.

Lemma simulate_shaped fuel : forall done st st' n,
  shaped_state st -> simulate fuel done st = Finished st' n -> shaped_state st'.
Proof.
  induction fuel as [| fuel IH]; intros done st st' n Hsh H; simpl in H.
  - destruct (halted st); [injection H as <- _; exact Hsh | discriminate].
  - destruct (halted st); [injection H as <- _; exact Hsh |].
    destruct (cycle st) as [st1 | e] eqn:Hc; [| discriminate].
    exact (IH _ _ _ _ (cycle_shaped _ _ Hsh Hc) H).
Qed.

Lemma print_registers_total count : forall r regs,
  0 <= r -> r + Z.of_nat count <= Z.of_nat (length regs) ->
  exists text, print_registers count r regs = Ok text.
Proof.
  induction count as [| count IH]; intros r regs Hr Hlen; simpl.
  - eauto.
  - rewrite (rd_reg regs r) by lia.
    destruct (IH (r + 1) regs ltac:(lia) ltac:(lia)) as [rest ->]. eexists. reflexivity.
Qed.

Lemma print_memory_total count : forall i memory,
  0 <= i -> i + Z.of_nat count <= Z.of_nat (length memory) ->
  exists text, print_memory count i memory = Ok text.
Proof.
  induction count as [| count IH]; intros i memory Hi Hlen; simpl.
  - eauto.
  - rewrite (rd_reg memory i) by lia.
    destruct (IH (i + 1) memory ltac:(lia) ltac:(lia)) as [rest ->]. eexists. reflexivity.
Qed.

Lemma print_state_total pc0 regs mem :
  shaped regs mem -> exists text, print_state pc0 regs mem 128 = Ok text.
Proof.
  intros [Hregs Hmem]. unfold print_state.
  destruct (print_registers_total (Z.to_nat NUM_REGS) 0 regs ltac:(lia)) as [r ->].
  { rewrite Hregs. unfold NUM_REGS. lia. }
  destruct (print_memory_total 128 0 mem ltac:(lia)) as [m ->].
  { rewrite Hmem, MEM_SIZE_eq. lia. }
  eexists. reflexivity.
Qed.

(** X18. [main] returns 0 exactly when its single argument names a file
    that opens, whose image loads and whose run halts. It writes the
    report exactly then: the report of the state the run halted in. *)
Theorem main_returns_zero open fuel args :
  (main_exit_code (main open fuel args) = Some 0
   <-> exists f lines st n,
         args = [f] /\ starts_with_dash f = false
         /\ open f = Some lines
         /\ e20sim fuel lines = Ran (Finished st n))
  /\ (forall t out, main open fuel args = Ended t out ->
      match t with
      | Ran (Finished st n) =>
          halted st = true
          /\ exists text,
               out = Some text
               /\ print_state (pc st) (registers st) (memory st) 128 = Ok text
      | _ => out = None
      end).
Proof.
  destruct (command_line_accepted open fuel args) as (Hargs & Hrun & _).
  split.
  - split.
    + intros H0.
      destruct (Hargs ltac:(intros Hu; rewrite Hu in H0; discriminate)) as (f & -> & Hdash).
      rewrite (Hrun f eq_refl Hdash) in H0.
      destruct (open f) as [lines |] eqn:Hopen; [| discriminate]. simpl in H0.
      destruct (e20sim fuel lines) as [e | e | [st n | e n | st]] eqn:Hsim;
        simpl in H0; try discriminate; [| destruct e; discriminate].
      exists f, lines, st, n. auto.
    + intros (f & lines & st & n & -> & Hdash & Hopen & Hsim).
      rewrite (Hrun f eq_refl Hdash), Hopen, Hsim. reflexivity.
  - intros t out Hmain.
    destruct (Hargs ltac:(rewrite Hmain; discriminate)) as (f & -> & Hdash).
    rewrite (Hrun f eq_refl Hdash) in Hmain.
    destruct (open f) as [lines |]; [| discriminate].
    injection Hmain as Hsim Hout. rewrite Hsim in Hout.
    destruct t as [e | e | [st n | e n | st]]; auto.
    unfold e20sim in Hsim.
    destruct (load_machine_code lines 0 zero_memory) as [mem | e | e] eqn:Hload;
      try discriminate.
    injection Hsim as Hsim.
    split; [exact (simulate_finished _ _ _ _ _ Hsim) |].
    pose proof (simulate_shaped _ _ _ _ _ (loads_shaped _ _ Hload) Hsim) as Hsh.
    destruct (print_state_total (pc st) _ _ Hsh) as [text Hp].
    rewrite Hp in Hout. exists text. auto.
Qed.

Lemma main_returns_zero_witness :
  main_exit_code
    (main (fun f => if bool_decide (f = "prog.bin") then Some jump_to_self else None)
          5 ["prog.bin"]) = Some 0
  /\ exists f lines st n,
       ["prog.bin"] = [f] /\ starts_with_dash f = false
       /\ (if bool_decide (f = "prog.bin") then Some jump_to_self else None) = Some lines
       /\ e20sim 5 lines = Ran (Finished st n).
Proof.
  assert (H : main_exit_code
                (main (fun f => if bool_decide (f = "prog.bin") then Some jump_to_self
                                else None) 5 ["prog.bin"]) = Some 0)
    by (vm_compute; reflexivity).
  split; [exact H |].
  exact (proj1 (proj1 (main_returns_zero _ 5 ["prog.bin"])) H).
Defined.

(** * Properties of the report *)

Local Arguments show : simpl never.
Local Arguments setw : simpl never.
Local Arguments digits : simpl never.

Lemma length_append (a b : string) :
  String.length (a +:+ b) = (String.length a + String.length b)%nat.
Proof. induction a as [| c a IH]; simpl; [reflexivity | rewrite IH; reflexivity]. Qed.

Lemma length_fill_chars count fill : String.length (fill_chars count fill) = count.
Proof. induction count as [| count IH]; simpl; [reflexivity | rewrite IH; reflexivity]. Qed.

Lemma length_setw width fill s :
  String.length (setw width fill s) = Nat.max width (String.length s).
Proof. unfold setw. rewrite length_append, length_fill_chars. lia. Qed.

Lemma digits_S base fuel n acc :
  digits base (S fuel) n acc
  = if n / base =? 0 then String (digit_char (n mod base)) acc
    else digits base fuel (n / base) (String (digit_char (n mod base)) acc).
Proof. reflexivity. Qed.

Lemma print_registers_S count r regs :
  print_registers (S count) r regs
  = (v ← rd regs r;
     rest ← print_registers count (r + 1) regs;
     mret (tab +:+ "$" +:+ show 10 r +:+ "=" +:+ setw 5 " " (show 10 v) +:+ endl +:+ rest)).
Proof. reflexivity. Qed.

Lemma print_memory_S count i memory :
  print_memory (S count) i memory
  = (v ← rd memory i;
     rest ← print_memory count (i + 1) memory;
     mret (setw 4 "0" (show 16 v) +:+ " "
           +:+ (if (i + 1) mod 8 =? 0 then endl else EmptyString) +:+ rest)).
Proof. reflexivity. Qed.

Ltac length_of_text :=
  unfold endl, tab;
  repeat first [ rewrite length_append
               | rewrite length_setw
               | progress cbn [String.length] ].

Lemma length_digits base fuel : forall (k : nat) n acc,
  2 <= base -> (1 <= k <= fuel)%nat -> 0 <= n < base ^ Z.of_nat k ->
  (1 + String.length acc <= String.length (digits base fuel n acc)
   <= k + String.length acc)%nat.
Proof.
  induction fuel as [| fuel IH]; intros k n acc Hb Hk Hn; [lia |].
  rewrite digits_S. destruct (n / base =? 0) eqn:Hq.
  - simpl. lia.
  - apply Z.eqb_neq in Hq.
    assert (Hge : base <= n).
    { destruct (Z_lt_le_dec n base) as [Hlt | Hge]; [| exact Hge].
      rewrite Z.div_small in Hq by lia. contradiction. }
    destruct k as [| [| k]]; [lia | rewrite Z.pow_1_r in Hn; lia |].
    assert (Hdiv : 0 <= n / base < base ^ Z.of_nat (S k)).
    { split; [apply Z.div_pos; lia |].
      apply Z.div_lt_upper_bound; [lia |].
      replace (Z.of_nat (S (S k))) with (Z.succ (Z.of_nat (S k))) in Hn by lia.
      rewrite Z.pow_succ_r in Hn by lia. lia. }
    pose proof (IH (S k) (n / base) (String (digit_char (n mod base)) acc)
                  Hb ltac:(lia) Hdiv) as Hlen.
    simpl String.length in Hlen. lia.
Qed.

Lemma length_show base (k : nat) n :
  2 <= base -> (1 <= k <= 32)%nat -> 0 <= n < base ^ Z.of_nat k ->
  (1 <= String.length (show base n) <= k)%nat.
Proof.
  intros Hb Hk Hn. pose proof (length_digits base 32 k n EmptyString Hb Hk Hn) as H.
  simpl String.length in H. unfold show. lia.
Qed.

Lemma length_print_registers count : forall r regs text,
  0 <= r -> r + Z.of_nat count <= 10 ->
  Forall (below 65536) regs ->
  print_registers count r regs = Ok text ->
  String.length text = (10 * count)%nat.
Proof.
  induction count as [| count IH]; intros r regs text Hr Hcount Hregs H.
  - injection H as <-. reflexivity.
  - rewrite print_registers_S in H. apply bind_inv in H as (v & Hv & H). apply bind_inv in H as (rest & Hrest & H).
    injection H as <-. apply rd_Ok in Hv.
    pose proof (Forall_lookup_1 _ _ _ _ Hregs Hv) as Hbelow. unfold below in Hbelow.
    pose proof (length_show 10 1 r ltac:(lia) ltac:(lia) ltac:(lia)) as Hlr.
    pose proof (length_show 10 5 v ltac:(lia) ltac:(lia) ltac:(simpl; lia)) as Hlv.
    pose proof (IH (r + 1) regs rest ltac:(lia) ltac:(lia) Hregs Hrest) as Hlen.
    length_of_text. lia.
Qed.

Lemma length_print_memory count : forall i memory text,
  0 <= i ->
  Forall (below 65536) memory ->
  print_memory count i memory = Ok text ->
  Z.of_nat (String.length text)
  = 5 * Z.of_nat count + ((i + Z.of_nat count) / 8 - i / 8).
Proof.
  induction count as [| count IH]; intros i memory text Hi Hmem H.
  - injection H as <-. simpl. rewrite Z.add_0_r. lia.
  - rewrite print_memory_S in H. apply bind_inv in H as (v & Hv & H). apply bind_inv in H as (rest & Hrest & H).
    injection H as <-. apply rd_Ok in Hv.
    pose proof (Forall_lookup_1 _ _ _ _ Hmem Hv) as Hbelow. unfold below in Hbelow.
    pose proof (length_show 16 4 v ltac:(lia) ltac:(lia) ltac:(simpl; lia)) as Hlv.
    pose proof (IH (i + 1) memory rest ltac:(lia) Hmem Hrest) as Hlen.
    replace (i + Z.of_nat (S count)) with (i + 1 + Z.of_nat count) by lia.
    destruct ((i + 1) mod 8 =? 0) eqn:Hnl; length_of_text.
    + apply Z.eqb_eq in Hnl.
      assert (Hstep : (i + 1) / 8 = i / 8 + 1) by (Z.div_mod_to_equations; lia). lia.
    + apply Z.eqb_neq in Hnl.
      assert (Hstep : (i + 1) / 8 = i / 8) by (Z.div_mod_to_equations; lia). lia.
Qed.

(** X19. The report has a fixed layout when the values fit their fields:
    with a PC below 100000 and 16-bit registers and memory words, every
    register line has ten characters, every memory word takes five, a
    newline follows each eighth word, and the text for [mem_qty] words has
    [104 + 5 * mem_qty + mem_qty / 8] characters: 760 for the 128 words
    [main] asks for. *)
Theorem report_length pc0 regs mem mem_qty text :
  0 <= pc0 < 100000 ->
  Forall (below 65536) regs ->
  Forall (below 65536) mem ->
  print_state pc0 regs mem mem_qty = Ok text ->
  Z.of_nat (String.length text) = 104 + 5 * Z.of_nat mem_qty + Z.of_nat mem_qty / 8
  /\ (mem_qty = 128%nat -> String.length text = 760%nat).
Proof.
  intros Hpc Hregs Hmem H. unfold print_state in H.
  apply bind_inv in H as (r & Hr & H). apply bind_inv in H as (m & Hm & H).
  injection H as <-.
  pose proof (length_print_registers (Z.to_nat NUM_REGS) 0 regs r ltac:(lia)
                ltac:(unfold NUM_REGS; lia) Hregs Hr) as Hlr.
  pose proof (length_print_memory mem_qty 0 mem m ltac:(lia) Hmem Hm) as Hlm.
  pose proof (length_show 10 5 pc0 ltac:(lia) ltac:(lia) ltac:(simpl; lia)) as Hlp.
  assert (Hlen : Z.of_nat (String.length
                   ("Final state:" +:+ endl +:+ tab +:+ "pc="
                    +:+ setw 5 " " (show 10 pc0) +:+ endl +:+ r +:+ m +:+ endl))
                 = 104 + 5 * Z.of_nat mem_qty + Z.of_nat mem_qty / 8).
  { unfold endl, tab. length_of_text. rewrite Z.add_0_l in Hlm.
    change (0 / 8) with 0 in Hlm. change (Z.to_nat NUM_REGS) with 8%nat in Hlr.
    generalize dependent (Z.of_nat mem_qty / 8). intros q Hlm.
    generalize dependent (String.length (show 10 pc0)). intros lp Hlp. lia. }
  split; [exact Hlen |].
  intros ->. apply Nat2Z.inj. etransitivity; [exact Hlen | reflexivity].
Qed.

Lemma report_length_witness :
  exists text,
    print_state 0 [0; 0; 0; 0; 0; 0; 0; 0] zero_memory 128 = Ok text
    /\ String.length text = 760%nat.
Proof.
  destruct (print_state_total 0 [0; 0; 0; 0; 0; 0; 0; 0] zero_memory) as [text Hp].
  { split; [reflexivity | exact zero_memory_length]. }
  exists text. split; [exact Hp |].
  apply (report_length 0 [0; 0; 0; 0; 0; 0; 0; 0] zero_memory 128 text).
  - lia.
  - repeat constructor; unfold below; lia.
  - apply zero_memory_below. lia.
  - exact Hp.
  - reflexivity.
Defined.

(** * A bound for every image *)

Lemma load_below B lines : forall expected mem0 mem,
  INT_MAX < B ->
  Forall (below B) mem0 ->
  load_machine_code lines expected mem0 = Loaded mem ->
  Forall (below B) mem.
Proof.
  induction lines as [| line lines IH]; intros expected mem0 mem HB Hmem0 H.
  - simpl in H. injection H as <-. exact Hmem0.
  - apply load_cons_Loaded in H as (instr & (sm1 & sm2 & _ & _ & Hi & _) & H).
    apply (IH _ _ _ HB) in H; [exact H |].
    apply Forall_insert; [exact Hmem0 |].
    pose proof (stoi_range sm2 2 instr ltac:(lia) Hi). unfold below. lia.
Qed.

(** X20. Whatever image the loader accepts, no register and no memory word
    ever holds a value outside 0 .. 2^31 - 1: the loader stores what [stoi]
    returns, an [int], and the cycle writes masked results, flags and
    copies of stored values only. *)
Theorem values_fit_int lines n st :
  reachable lines n st ->
  Forall (below (2 ^ 31)) (registers st) /\ Forall (below (2 ^ 31)) (memory st).
Proof.
  intros (mem & Hload & Hafter).
  assert (Hmem : Forall (below (2 ^ 31)) mem).
  { apply (load_below (2 ^ 31) lines 0 zero_memory mem); [unfold INT_MAX; lia | | exact Hload].
    apply zero_memory_below. lia. }
  apply (after_invariant
           (fun s => shaped_state s /\ values_below (2 ^ 31) s)) with (n := n) (st := boot mem);
    [| split; [exact (loads_shaped _ _ Hload) | apply boot_below; [lia | exact Hmem]]
     | exact Hafter].
  intros s s' [Hs Hb] _ Hcs. rewrite (cycle_closed_form s Hs) in Hcs.
  injection Hcs as <-.
  split; [apply cycle_closed_shaped, Hs | apply cycle_closed_below; [lia | exact Hb]].
Qed.

Lemma values_fit_int_witness :
  reachable wide_literal 0 (boot (<[0%nat := 65536]> zero_memory))
  /\ Forall (below (2 ^ 31)) (registers (boot (<[0%nat := 65536]> zero_memory)))
  /\ Forall (below (2 ^ 31)) (memory (boot (<[0%nat := 65536]> zero_memory))).
Proof.
  assert (Hreach : reachable wide_literal 0 (boot (<[0%nat := 65536]> zero_memory))).
  { exists (<[0%nat := 65536]> zero_memory). split; [vm_compute |]; reflexivity. }
  split; [exact Hreach | exact (values_fit_int _ _ _ Hreach)].
Defined.

(** The report of the state [jump_to_self] halts in starts with the PC and
    register 0. *)
Example report_of_jump_to_self :
  exists text rest,
    main (fun _ => Some jump_to_self) 5 ["prog.bin"]
    = Ended (e20sim 5 jump_to_self) (Some text)
    /\ text = "Final state:" +:+ endl +:+ tab +:+ "pc=    0" +:+ endl
              +:+ tab +:+ "$0=    0" +:+ endl +:+ rest.
Proof. eexists _, _. split; vm_compute; reflexivity. Qed.
